(** * predict.py: a first-order Markov chain over the words of an EPUB

    Shallow embedding of [MarkovChainGenerator] (src/predict.py) and the
    properties of its four operations: text cleaning, table construction
    ([process_epub]), CSV export ([save_word_pairs]) and the random walk
    ([generate_text]).

    Python strings are sequences of Unicode code points, the table is an
    insertion-ordered [defaultdict(list)], and every method runs in a
    state-and-exception monad over the generator object and the parts of
    the outside world the methods touch (log, output file, random
    generator, standard output). *)

From Stdlib Require Import List NArith ZArith Bool Lia String Ascii Permutation.
Import ListNotations.


(** ** Python strings *)

(** A character is its code point; a [str] is the list of its characters. *)
Definition char := N.
Definition pystr := list char.

(** Literal of an ASCII-only Python string. *)
Definition str (s : string) : pystr := map N_of_ascii (list_ascii_of_string s).

Definition char_eqb : char -> char -> bool := N.eqb.

Fixpoint pystr_eqb (a b : pystr) : bool :=
  match a, b with
  | [], [] => true
  | x :: a', y :: b' => char_eqb x y && pystr_eqb a' b'
  | _, _ => false
  end.

(** [c in s] for a character [c]. *)
Definition char_in (c : char) (s : pystr) : bool := existsb (char_eqb c) s.

(** [str.isspace] on one character, the test used by [str.strip()] and
    [str.split()] without arguments (CPython's [_PyUnicode_IsWhitespace]). *)
Definition isspace (c : char) : bool :=
  (((0x09 <=? c) && (c <=? 0x0D)) || ((0x1C <=? c) && (c <=? 0x20))
   || (c =? 0x85) || (c =? 0xA0) || (c =? 0x1680)
   || ((0x2000 <=? c) && (c <=? 0x200A))
   || (c =? 0x2028) || (c =? 0x2029) || (c =? 0x202F) || (c =? 0x205F)
   || (c =? 0x3000))%N.

Fixpoint dropwhile (p : char -> bool) (s : pystr) : pystr :=
  match s with
  | [] => []
  | c :: s' => if p c then dropwhile p s' else s
  end.

(** [s.lstrip()], [s.rstrip()], [s.strip()]. *)
Definition lstrip (s : pystr) : pystr := dropwhile isspace s.
Definition rstrip (s : pystr) : pystr := rev (dropwhile isspace (rev s)).
Definition strip (s : pystr) : pystr := rstrip (lstrip s).

(** [s.split()]: the scan of CPython's [split_whitespace].  [cur] holds,
    reversed, the characters of the word being read. *)
Fixpoint split_from (cur : pystr) (s : pystr) : list pystr :=
  match s with
  | [] => match cur with [] => [] | _ :: _ => [rev cur] end
  | c :: s' =>
      if isspace c then
        match cur with
        | [] => split_from [] s'
        | _ :: _ => rev cur :: split_from [] s'
        end
      else split_from (c :: cur) s'
  end.

Definition split (s : pystr) : list pystr := split_from [] s.

(** [sep.join(words)]. *)
Fixpoint join (sep : pystr) (words : list pystr) : pystr :=
  match words with
  | [] => []
  | [w] => w
  | w :: ws => w ++ sep ++ join sep ws
  end.

(** [text.translate(str.maketrans('', '', z))]: every character of [z] is
    mapped to [None], that is, deleted; the others are kept. *)
Definition translate_delete (z : pystr) (text : pystr) : pystr :=
  filter (fun c => negb (char_in c z)) text.

(** [s.encode('utf-8')] with the default strict error handler succeeds
    unless [s] holds a surrogate code point, U+D800 to U+DFFF; this is
    what a text file opened with [encoding='utf-8'] does to every string
    written to it. *)
Definition is_surrogate (c : char) : bool :=
  ((0xD800 <=? c) && (c <=? 0xDFFF))%N.

Definition encodable (s : pystr) : bool :=
  forallb (fun c => negb (is_surrogate c)) s.

(** [str.lower] is a builtin driven by the Unicode character database; the
    program is verified for any such function. *)
Class StrBuiltins := { str_lower : pystr -> pystr }.

(** [str.lower] restricted to the letters A-Z: what the builtin does on
    strings whose cased characters are all ASCII. *)
Definition ascii_lower_char (c : char) : char :=
  (if (0x41 <=? c) && (c <=? 0x5A) then c + 0x20 else c)%N.

Definition ascii_lower : StrBuiltins := {| str_lower := map ascii_lower_char |}.

(** ** The [random] module *)

(** [rng] is the state of the generator, [randbelow n] is
    [Random._randbelow(n)]: for [n > 0], a number in [[0, n)]. *)
Class RandomModule := {
  rng : Type;
  randbelow : nat -> rng -> nat * rng;
  randbelow_lt : forall n g, 0 < n -> fst (randbelow n g) < n
}.

(** ** Exceptions, log records, state *)

Inductive exn :=
| ValueError (start_word : pystr)  (* "Start word '...' not found in the word pairs" *)
| IndexError                       (* list index out of range; empty sequence *)
| OSError (errno : N)              (* open() of the output path *)
| UnicodeEncodeError               (* a surrogate written to the UTF-8 file *)
| LibraryError (code : N).         (* raised inside ebooklib, BeautifulSoup,
                                      logging or print *)

Inductive outcome (A : Type) :=
| Ok (a : A)
| Raise (e : exn).
Arguments Ok {A} a.
Arguments Raise {A} e.

Inductive level := INFO | ERROR.

Inductive message :=
| ProcessingEpub                 (* "Processing EPUB file: ..." *)
| ProcessedUnique (n : nat)      (* "Processed n unique words." *)
| ErrorProcessing (e : exn)      (* "Error processing EPUB: e" *)
| SavedPairs                     (* "Word pairs saved to: ..." *)
| ErrorSaving (e : exn)          (* "Error saving word pairs: e" *)
| ErrorGenerating (e : exn)      (* "Error generating text: e" *)
| ProgramFailed (e : exn).       (* "Program failed: e" *)

(** The transition table [self.word_pairs]: a [dict] keeps its keys in the
    order of their first insertion, which [items()] follows. *)
Definition dict := list (pystr * list pystr).

(** A row handed to [csv.writer.writerow]. *)
Definition row := list pystr.

Fixpoint dict_get (k : pystr) (d : dict) : option (list pystr) :=
  match d with
  | [] => None
  | (k', v) :: d' => if pystr_eqb k k' then Some v else dict_get k d'
  end.

(** [k in d]. *)
Definition dict_contains (k : pystr) (d : dict) : bool :=
  match dict_get k d with Some _ => true | None => false end.

(** [d[k] = v]: in place when [k] is a key, at the end otherwise. *)
Fixpoint dict_set (k : pystr) (v : list pystr) (d : dict) : dict :=
  match d with
  | [] => [(k, v)]
  | (k', v') :: d' =>
      if pystr_eqb k k' then (k', v) :: d' else (k', v') :: dict_set k v d'
  end.

(** [range(n)]. *)
Definition py_range (n : Z) : list Z := map Z.of_nat (seq 0 (Z.to_nat n)).

(** What the decoding collaborators hand over.  A document is
    [BeautifulSoup(item.get_content(), 'html.parser')] followed by
    [p.get_text()] for [p] in [find_all('p')]: the paragraph strings, or
    the exception raised on the way.  The source is [epub.read_epub] and
    [get_items_of_type(ITEM_DOCUMENT)]: the documents, or the exception of
    [read_epub]. *)
Definition document := outcome (list pystr).
Definition epub_source := outcome (list document).

(** What [parser.parse_args()] does: it returns the arguments ([epub_path]
    and [output_path] reach the program through the collaborators that
    open them), or it ends the process with [SystemExit]. *)
Inductive parse_result :=
| Parsed (start_word : pystr) (length : Z)
| SystemExit (status : Z).

Section Program.

Context {builtins : StrBuiltins} {random : RandomModule}.

(** The generator object and the world around it. *)
Record state := {
  word_pairs : dict;                (* self.word_pairs *)
  log : list (level * message);     (* records emitted through logging *)
  rand : rng;                       (* state of the random module *)
  output_file : option (list row);  (* rows written to self.output_path *)
  stdout : list pystr               (* arguments of print, in order *)
}.

Definition set_word_pairs (d : dict) (s : state) : state :=
  {| word_pairs := d; log := log s; rand := rand s;
     output_file := output_file s; stdout := stdout s |}.

Definition add_log (r : level * message) (s : state) : state :=
  {| word_pairs := word_pairs s; log := log s ++ [r]; rand := rand s;
     output_file := output_file s; stdout := stdout s |}.

Definition set_rand (g : rng) (s : state) : state :=
  {| word_pairs := word_pairs s; log := log s; rand := g;
     output_file := output_file s; stdout := stdout s |}.

Definition set_output_file (f : option (list row)) (s : state) : state :=
  {| word_pairs := word_pairs s; log := log s; rand := rand s;
     output_file := f; stdout := stdout s |}.

Definition add_stdout (line : pystr) (s : state) : state :=
  {| word_pairs := word_pairs s; log := log s; rand := rand s;
     output_file := output_file s; stdout := stdout s ++ [line] |}.

(** A statement either returns or raises; what it did to the state
    before raising stays done. *)
Definition M (A : Type) : Type := state -> outcome A * state.

Definition ret {A} (a : A) : M A := fun s => (Ok a, s).

Definition raise {A} (e : exn) : M A := fun s => (Raise e, s).

Definition bind {A B} (m : M A) (k : A -> M B) : M B :=
  fun s =>
    match m s with
    | (Ok a, s') => k a s'
    | (Raise e, s') => (Raise e, s')
    end.

(** [try: body  except Exception as e: handler e]. *)
Definition try_except {A} (body : M A) (handler : exn -> M A) : M A :=
  fun s =>
    match body s with
    | (Ok a, s') => (Ok a, s')
    | (Raise e, s') => handler e s'
    end.

Definition gets {A} (f : state -> A) : M A := fun s => (Ok (f s), s).

Definition modify (f : state -> state) : M unit := fun s => (Ok tt, f s).

(** The value of an external call, or its exception. *)
Definition lift {A} (o : outcome A) : M A := fun s => (o, s).

End Program.

Declare Scope py_scope.
Delimit Scope py_scope with py.
Notation "x <- m ;; k" := (bind m (fun x => k))
  (at level 61, m at next level, right associativity) : py_scope.
Notation "' pat <- m ;; k" := (bind m (fun x => match x with pat => k end))
  (at level 61, pat pattern, m at next level, right associativity) : py_scope.
Notation "m ;; k" := (bind m (fun _ => k))
  (at level 61, right associativity) : py_scope.
Local Open Scope py_scope.

(** A loop body ends an iteration normally or through [break]; [L] is the
    type of the local variables the loop assigns. *)
Inductive flow (L : Type) :=
| Continue (locals : L)
| Break (locals : L).
Arguments Continue {L} locals.
Arguments Break {L} locals.

Section Methods.

Context {builtins : StrBuiltins} {random : RandomModule}.

Definition logging_info (m : message) : M unit := modify (add_log (INFO, m)).
Definition logging_error (m : message) : M unit := modify (add_log (ERROR, m)).

(** [for x in xs: body x]. *)
Fixpoint for_each {A} (xs : list A) (body : A -> M unit) : M unit :=
  match xs with
  | [] => ret tt
  | x :: xs' => body x ;; for_each xs' body
  end.

Fixpoint for_break {A L} (xs : list A) (body : A -> L -> M (flow L))
    (locals : L) : M L :=
  match xs with
  | [] => ret locals
  | x :: xs' =>
      f <- body x locals ;;
      match f with
      | Continue locals' => for_break xs' body locals'
      | Break locals' => ret locals'
      end
  end.

(** [l[i]] on a list: negative indices count from the end. *)
Definition list_getitem {A} (l : list A) (i : Z) : M A :=
  let n := Z.of_nat (List.length l) in
  let j := (if i <? 0 then i + n else i)%Z in
  if ((0 <=? j) && (j <? n))%Z then
    match nth_error l (Z.to_nat j) with
    | Some a => ret a
    | None => raise IndexError
    end
  else raise IndexError.

(** [self.word_pairs[k]] on the [defaultdict(list)]: a missing key is
    first bound to a fresh empty list. *)
Definition defaultdict_getitem (k : pystr) : M (list pystr) :=
  d <- gets word_pairs ;;
  match dict_get k d with
  | Some v => ret v
  | None => modify (set_word_pairs (dict_set k [] d)) ;; ret []
  end.

(** [entry.append(w)] where [entry] is the list object bound to [k] in
    [self.word_pairs]: the table sees the longer list.  The object was
    obtained from the table, so [k] is a key when this runs. *)
Definition entry_append (k : pystr) (w : pystr) : M unit :=
  d <- gets word_pairs ;;
  match dict_get k d with
  | Some v => modify (set_word_pairs (dict_set k (v ++ [w]) d))
  | None => ret tt
  end.

(** [random.choice(seq)]. *)
Definition random_choice (seq : list pystr) : M pystr :=
  match seq with
  | [] => raise IndexError
  | _ :: _ =>
      g <- gets rand ;;
      let (i, g') := randbelow (List.length seq) g in
      modify (set_rand g') ;;
      list_getitem seq (Z.of_nat i)
  end.

(** ** The methods of [MarkovChainGenerator] *)

Definition punctuation : pystr :=
  [0x22; 0x2E; 0x2C; 0x28; 0x29; 0x3F; 0x21; 0x3A; 0x201C; 0x3B;
   0x5B; 0x5D; 0x7B; 0x7D; 0x27; 0x22]%N.

Definition clean_text (text : pystr) : pystr :=
  strip (str_lower (translate_delete punctuation text)).

(** Lines 43-47: one paragraph of [process_epub]. *)
Definition process_paragraph (p : pystr) : M unit :=
  let text := clean_text p in
  let words := split text in
  for_each (py_range (Z.of_nat (List.length words) - 1)) (fun i =>
    first <- list_getitem words i ;;
    _ <- defaultdict_getitem first ;;
    second <- list_getitem words (i + 1) ;;
    entry_append first second).

(** Lines 41-47: one item of the book. *)
Definition process_document (item : document) : M unit :=
  paragraphs <- lift item ;;
  for_each paragraphs process_paragraph.

Definition process_epub (source : epub_source) : M unit :=
  try_except
    (book <- lift source ;;
     logging_info ProcessingEpub ;;
     for_each book process_document ;;
     d <- gets word_pairs ;;
     logging_info (ProcessedUnique (List.length d)))
    (fun e => logging_error (ErrorProcessing e) ;; raise e).

(** [open(self.output_path, 'w', ...)]: [opened] is what the operating
    system answers; an opened file is empty.  What the program writes can
    fail to be encoded, which [writerow] models; a device that fails after
    it was opened is outside the model. *)
Definition open_w (opened : outcome unit) : M unit :=
  lift opened ;; modify (set_output_file (Some [])).

(** [writer.writerow(r)] on the opened file.  The writer hands the line
    of the row to the text file, which encodes it at once: a field with a
    surrogate code point raises [UnicodeEncodeError] and nothing of the row
    reaches the file; the rows written before stay. *)
Definition writerow (r : row) : M unit :=
  if forallb encodable r then
    modify (fun s =>
      set_output_file
        (Some (match output_file s with Some rows => rows | None => [] end
               ++ [r])) s)
  else raise UnicodeEncodeError.

Definition save_word_pairs (opened : outcome unit) : M unit :=
  try_except
    (open_w opened ;;
     writerow [str "first"; str "last"] ;;
     d <- gets word_pairs ;;
     for_each d (fun '(first_word, second_words) =>
       for_each second_words (fun second_word =>
         writerow [first_word; second_word])) ;;
     logging_info SavedPairs)
    (fun e => logging_error (ErrorSaving e) ;; raise e).

(** Lines 79-83: the body of the loop of [generate_text], on the local
    variables [generated_words] and [current_word]. *)
Definition generate_step (_ : Z) (locals : list pystr * pystr)
    : M (flow (list pystr * pystr)) :=
  let '(generated_words, current_word) := locals in
  d <- gets word_pairs ;;
  if negb (dict_contains current_word d)
  then ret (Break (generated_words, current_word))
  else
    entry <- defaultdict_getitem current_word ;;
    next_word <- random_choice entry ;;
    ret (Continue (generated_words ++ [next_word], next_word)).

Definition generate_text (start_word : pystr) (length : Z) : M pystr :=
  d <- gets word_pairs ;;
  if negb (dict_contains start_word d) then raise (ValueError start_word)
  else
    try_except
      (locals <- for_break (py_range (length - 1)) generate_step
                   ([start_word], start_word) ;;
       ret (join (str " ") (fst locals)))
      (fun e => logging_error (ErrorGenerating e) ;; raise e).

(** [MarkovChainGenerator.__init__]: a new, empty table, then
    [setup_logging], whose [logging.basicConfig] with a [FileHandler] on
    markov_chain.log is a call into the logging library: [configured] is
    its result. *)
Definition setup_logging (configured : outcome unit) : M unit :=
  lift configured.

Definition init (configured : outcome unit) : M unit :=
  modify (set_word_pairs []) ;;
  setup_logging configured.

(** [print(text)]: [printed text] is what writing [text] to the standard
    output of the process results in. *)
Definition py_print (printed : pystr -> outcome unit) (text : pystr) : M unit :=
  lift (printed text) ;;
  modify (add_stdout text).

(** [main]: the exit status of the process.  [parser.parse_args()] is
    outside the [try]: it returns the arguments or leaves the process with
    a status of its own (2 on invalid arguments, 0 after [--help]). *)
Definition main (args : parse_result) (configured : outcome unit)
    (source : epub_source) (opened : outcome unit)
    (printed : pystr -> outcome unit) : state -> Z * state :=
  fun s =>
    match args with
    | SystemExit status => (status, s)
    | Parsed start_word length =>
        match
          (init configured ;;
           process_epub source ;;
           save_word_pairs opened ;;
           generated_text <- generate_text start_word length ;;
           py_print printed (0x0A%N :: str "Generated text:") ;;
           py_print printed generated_text) s
        with
        | (Ok _, s') => (0%Z, s')
        | (Raise e, s') => (1%Z, add_log (ERROR, ProgramFailed e) s')
        end
    end.

End Methods.

(** ** Vocabulary of the specification *)

Section Vocabulary.

Context {builtins : StrBuiltins} {random : RandomModule}.

(** The Text Normalizer: lines 43 and 44 of [process_epub]. *)
Definition normalize (p : pystr) : list pystr := split (clean_text p).

(** The adjacency at index [i] of a token sequence, and the adjacencies at
    the indices [0 .. n-2] in increasing order. *)
Definition pair_at (words : list pystr) (i : nat) : pystr * pystr :=
  (nth i words [], nth (S i) words []).

Definition adjacent (words : list pystr) : list (pystr * pystr) :=
  map (pair_at words) (seq 0 (List.length words - 1)).

(** The entry of [k], empty when [k] is not a key. *)
Definition successors (k : pystr) (d : dict) : list pystr :=
  match dict_get k d with Some v => v | None => [] end.

(** Recording one adjacency: the successor goes to the end of the entry
    of the predecessor, which is created when absent. *)
Definition record (d : dict) (a : pystr * pystr) : dict :=
  dict_set (fst a) (successors (fst a) d ++ [snd a]) d.

Definition keys (d : dict) : list pystr := map fst d.

(** Number of adjacencies a table holds. *)
Definition adjacency_count (d : dict) : nat :=
  list_sum (map (fun item => List.length (snd item)) d).

(** The adjacencies of a fully decoded book, in reading order. *)
Definition observed (book : list (list pystr)) : list (pystr * pystr) :=
  flat_map (fun p => adjacent (normalize p)) (List.concat book).

(** A table built from a book: what a successful [process_epub] leaves in
    a generator that started with an empty table. *)
Definition built_from (book : list (list pystr)) (d : dict) : Prop :=
  exists s0 s1 : state,
    word_pairs s0 = [] /\
    process_epub (Ok (map Ok book)) s0 = (Ok tt, s1) /\
    word_pairs s1 = d.

Definition built (d : dict) : Prop := exists book, built_from book d.

(** The first exception of the decoding steps, in the order in which
    [process_epub] runs them. *)
Fixpoint first_failure_in (book : list document) : option exn :=
  match book with
  | [] => None
  | Ok _ :: book' => first_failure_in book'
  | Raise e :: _ => Some e
  end.

Definition first_failure (source : epub_source) : option exn :=
  match source with
  | Raise e => Some e
  | Ok book => first_failure_in book
  end.

(** The paragraphs decoded before the first exception. *)
Fixpoint decoded_prefix (book : list document) : list (list pystr) :=
  match book with
  | Ok paragraphs :: book' => paragraphs :: decoded_prefix book'
  | _ => []
  end.

(** The elements of a list in the order of their first occurrence. *)
Fixpoint first_seen (seen : list pystr) (l : list pystr) : list pystr :=
  match l with
  | [] => []
  | x :: l' =>
      if existsb (pystr_eqb x) seen then first_seen seen l'
      else x :: first_seen (x :: seen) l'
  end.

(** A token: not empty and free of whitespace. *)
Definition is_token (w : pystr) : bool :=
  negb (pystr_eqb w []) && forallb (fun c => negb (isspace c)) w.

Definition all_space (s : pystr) : bool := forallb isspace s.
Definition no_space (s : pystr) : bool := forallb (fun c => negb (isspace c)) s.

(** [splits s ws]: [ws] are the maximal whitespace-free runs of [s], from
    left to right.  Each word is preceded by a possibly empty run of
    whitespace and followed by the end of the string or by whitespace. *)
Inductive splits : pystr -> list pystr -> Prop :=
| splits_nil (sp : pystr) : all_space sp = true -> splits sp []
| splits_word (sp w rest : pystr) (ws : list pystr) :
    all_space sp = true -> is_token w = true ->
    match rest with [] => True | c :: _ => isspace c = true end ->
    splits rest ws -> splits (sp ++ w ++ rest) (w :: ws).

(** The punctuation set as the specification words it: the double
    quotation mark in its straight form and in both of its curly forms,
    then parentheses, brackets, braces, comma, period, colon, semicolon,
    question mark, exclamation mark and apostrophe. *)
Definition claimed_punctuation : pystr :=
  [0x22; 0x201C; 0x201D; 0x28; 0x29; 0x5B; 0x5D; 0x7B; 0x7D;
   0x2C; 0x2E; 0x3A; 0x3B; 0x3F; 0x21; 0x27]%N.

(** Keys and successors are tokens. *)
Definition tokens_only (d : dict) : Prop :=
  Forall (fun item => is_token (fst item) = true /\
                      Forall (fun w => is_token w = true) (snd item)) d.

(** All the fields of all the rows can be encoded. *)
Definition rows_encodable (rows : list row) : bool :=
  forallb (forallb encodable) rows.

(** The rows before the first one that cannot be encoded. *)
Fixpoint encodable_prefix (rows : list row) : list row :=
  match rows with
  | [] => []
  | r :: rows' =>
      if forallb encodable r then r :: encodable_prefix rows' else []
  end.

(** Every key has at least one successor. *)
Definition nonempty_entries (d : dict) : Prop :=
  forall k v, dict_get k d = Some v -> v <> [].

(** The data rows of the export, header excluded. *)
Definition pair_rows (d : dict) : list row :=
  flat_map (fun item => map (fun second_word => [fst item; second_word]) (snd item)) d.

(** A walk in the table: each word is one of the successors recorded for
    the word before it. *)
Fixpoint walk_in (d : dict) (current : pystr) (rest : list pystr) : Prop :=
  match rest with
  | [] => True
  | w :: rest' => In w (successors current d) /\ walk_in d w rest'
  end.


(** Calls a client makes on a built generator, and the state they leave;
    a call that raises leaves the state it had reached. *)
Inductive call :=
| Export (opened : outcome unit)
| Generate (start_word : pystr) (length : Z).

Definition run_call (c : call) (s : state) : state :=
  match c with
  | Export opened => snd (save_word_pairs opened s)
  | Generate start_word length => snd (generate_text start_word length s)
  end.

Definition run_calls (calls : list call) (s : state) : state :=
  fold_left (fun s c => run_call c s) calls s.

(** From [s] to [s'] nothing changed except, possibly, the state of the
    random generator. *)
Definition only_rand_changed (s s' : state) : Prop :=
  word_pairs s' = word_pairs s /\ log s' = log s /\
  output_file s' = output_file s /\ stdout s' = stdout s.



End Vocabulary.

(** ** A deterministic run

    The random choice forced to the first candidate, and the generator
    built from a book of one paragraph. *)

Definition first_choice : RandomModule :=
  {| rng := unit;
     randbelow := fun _ g => (0, g);
     randbelow_lt := fun n g H => H |}.

Definition sample_book : list (list pystr) :=
  [[str "The cat sat. The cat ran."]].

Definition new_generator : @state first_choice :=
  {| word_pairs := []; log := []; rand := (tt : @rng first_choice);
     output_file := None; stdout := [] |}.

Definition sample_generator : @state first_choice :=
  snd (@process_epub ascii_lower first_choice (Ok (map Ok sample_book))
         new_generator).



(** ** Strings *)

Lemma pystr_eqb_eq (a b : pystr) : pystr_eqb a b = true <-> a = b.
Proof.
  revert b; induction a as [|x a IH]; intros [|y b]; simpl;
    try (split; [discriminate | discriminate]); try tauto.
  unfold char_eqb. rewrite andb_true_iff, N.eqb_eq, IH.
  split; [intros [-> ->]; reflexivity | intros E; injection E; auto].
Qed.

Lemma pystr_eqb_refl (a : pystr) : pystr_eqb a a = true.
Proof. apply pystr_eqb_eq; reflexivity. Qed.

Lemma pystr_eqb_neq (a b : pystr) : pystr_eqb a b = false <-> a <> b.
Proof.
  rewrite <- pystr_eqb_eq. destruct (pystr_eqb a b); split; congruence.
Qed.


Lemma char_in_In (c : char) (z : pystr) : char_in c z = true <-> In c z.
Proof.
  unfold char_in. rewrite existsb_exists. split.
  - intros (x & Hx & E). apply N.eqb_eq in E. subst; assumption.
  - intros H. exists c. split; [assumption | apply N.eqb_refl].
Qed.

Lemma is_token_spec (w : pystr) :
  is_token w = true <-> w <> [] /\ no_space w = true.
Proof.
  unfold is_token. rewrite andb_true_iff, negb_true_iff, pystr_eqb_neq.
  reflexivity.
Qed.

(** *** Splitting on whitespace *)

Lemma split_from_all_space (cur sp : pystr) :
  all_space sp = true ->
  split_from cur sp = match cur with [] => [] | _ :: _ => [rev cur] end.
Proof.
  revert cur. induction sp as [|c sp IH]; intros cur; simpl; [reflexivity|].
  intros H. apply andb_true_iff in H as [Hc Hsp]. rewrite Hc.
  destruct cur; rewrite (IH [] Hsp); reflexivity.
Qed.

Lemma split_from_skip_space (sp s : pystr) :
  all_space sp = true -> split_from [] (sp ++ s) = split_from [] s.
Proof.
  induction sp as [|c sp IH]; simpl; [reflexivity|].
  intros H. apply andb_true_iff in H as [Hc Hsp]. rewrite Hc. auto.
Qed.

Lemma split_from_read_word (cur w s : pystr) :
  no_space w = true -> split_from cur (w ++ s) = split_from (rev w ++ cur) s.
Proof.
  revert cur. induction w as [|c w IH]; intros cur; simpl; [reflexivity|].
  intros H. apply andb_true_iff in H as [Hc Hw].
  apply negb_true_iff in Hc. rewrite Hc, (IH _ Hw), <- app_assoc. reflexivity.
Qed.

Lemma split_from_trailing_space (cur s sp : pystr) :
  all_space sp = true -> split_from cur (s ++ sp) = split_from cur s.
Proof.
  intros Hsp. revert cur. induction s as [|c s IH]; intros cur; simpl.
  - apply split_from_all_space; assumption.
  - destruct (isspace c); [destruct cur|]; rewrite ?IH; reflexivity.
Qed.

Lemma splits_space_cons (c : char) (s : pystr) (ws : list pystr) :
  isspace c = true -> splits s ws -> splits (c :: s) ws.
Proof.
  intros Hc H. destruct H as [sp Hsp | sp w rest ws Hsp Hw Hrest H].
  - apply splits_nil. simpl. rewrite Hc. assumption.
  - apply (@splits_word (c :: sp) w rest); auto. simpl. rewrite Hc. assumption.
Qed.

Lemma split_from_splits (s cur : pystr) :
  no_space cur = true -> splits (rev cur ++ s) (split_from cur s).
Proof.
  revert cur. induction s as [|c s IH]; intros cur Hcur; simpl.
  - destruct cur as [|a cur].
    + apply splits_nil. reflexivity.
    + apply (@splits_word [] (rev (a :: cur)) []); auto.
      * apply is_token_spec. split.
        { simpl. intros E. apply app_eq_nil in E as [_ E]. discriminate. }
        { unfold no_space in *. rewrite forallb_forall in *.
          intros x Hx. apply Hcur. apply in_rev. assumption. }
      * apply splits_nil. reflexivity.
  - destruct (isspace c) eqn:Hc.
    + destruct cur as [|a cur].
      * apply splits_space_cons; [assumption|]. apply (IH []). reflexivity.
      * apply (@splits_word [] (rev (a :: cur)) (c :: s)); auto.
        { apply is_token_spec. split.
          { simpl. intros E. apply app_eq_nil in E as [_ E]. discriminate. }
          { unfold no_space in *. rewrite forallb_forall in *.
            intros x Hx. apply Hcur. apply in_rev. assumption. } }
        { apply splits_space_cons; [assumption|]. apply (IH []). reflexivity. }
    + replace (rev cur ++ c :: s) with (rev (c :: cur) ++ s)
        by (simpl; rewrite <- app_assoc; reflexivity).
      apply IH. simpl. rewrite Hc. assumption.
Qed.

(** [split] computes the maximal whitespace-free runs, and nothing else
    does. *)
Lemma split_splits (s : pystr) : splits s (split s).
Proof. apply (split_from_splits s []). reflexivity. Qed.

Lemma splits_unique (s : pystr) (ws : list pystr) : splits s ws -> split s = ws.
Proof.
  unfold split. induction 1 as [sp Hsp | sp w rest ws Hsp Hw Hrest H IH].
  - apply (split_from_all_space [] sp Hsp).
  - apply is_token_spec in Hw as [Hne Hw].
    rewrite split_from_skip_space, split_from_read_word, app_nil_r by assumption.
    destruct rest as [|c rest]; simpl.
    + simpl in IH. subst ws.
      destruct (rev w) eqn:E.
      * apply (f_equal (@rev char)) in E. rewrite rev_involutive in E.
        simpl in E. congruence.
      * rewrite <- E, rev_involutive. reflexivity.
    + rewrite Hrest. simpl in IH. rewrite Hrest in IH.
      destruct (rev w) eqn:E.
      * apply (f_equal (@rev char)) in E. rewrite rev_involutive in E.
        simpl in E. congruence.
      * rewrite <- E, rev_involutive, IH. reflexivity.
Qed.

Lemma splits_tokens (s : pystr) (ws : list pystr) :
  splits s ws -> Forall (fun w => is_token w = true) ws.
Proof. induction 1; constructor; assumption. Qed.

Lemma split_tokens (s : pystr) : Forall (fun w => is_token w = true) (split s).
Proof. apply (splits_tokens s _ (split_splits s)). Qed.

(** *** Trimming *)

Lemma dropwhile_decompose (s : pystr) :
  exists sp, s = sp ++ dropwhile isspace s /\ all_space sp = true.
Proof.
  induction s as [|c s (sp & E & Hsp)]; simpl.
  - exists []. split; reflexivity.
  - destruct (isspace c) eqn:Hc.
    + exists (c :: sp). simpl. rewrite Hc. split; [congruence | assumption].
    + exists []. split; reflexivity.
Qed.

Lemma dropwhile_head (s : pystr) :
  match dropwhile isspace s with [] => True | c :: _ => isspace c = false end.
Proof.
  induction s as [|c s IH]; simpl; [exact I|].
  destruct (isspace c) eqn:Hc; [assumption | simpl; assumption].
Qed.

Lemma all_space_rev (s : pystr) : all_space (rev s) = all_space s.
Proof.
  unfold all_space. destruct (forallb isspace s) eqn:E.
  - rewrite forallb_forall in *. intros x Hx. apply E, in_rev; assumption.
  - destruct (forallb isspace (rev s)) eqn:E'; [|reflexivity].
    rewrite <- E. symmetry. rewrite forallb_forall in *.
    intros x Hx. apply E'. rewrite <- in_rev. assumption.
Qed.

(** [strip] removes a whitespace prefix and a whitespace suffix, and what
    is left neither starts nor ends with whitespace. *)
Lemma strip_decompose (s : pystr) :
  exists l r,
    s = l ++ strip s ++ r /\ all_space l = true /\ all_space r = true /\
    match strip s with [] => True | c :: _ => isspace c = false end /\
    match rev (strip s) with [] => True | c :: _ => isspace c = false end.
Proof.
  unfold strip, rstrip, lstrip.
  destruct (dropwhile_decompose s) as (l & El & Hl).
  set (t := dropwhile isspace s) in *.
  destruct (dropwhile_decompose (rev t)) as (r & Er & Hr).
  exists l, (rev r). split; [|split; [|split; [|split]]].
  - rewrite El at 1. f_equal.
    rewrite <- (rev_involutive t), Er at 1.
    rewrite rev_app_distr. reflexivity.
  - assumption.
  - rewrite all_space_rev. assumption.
  - pose proof (dropwhile_head s) as Hhead. fold t in Hhead.
    pose proof (dropwhile_head (rev t)) as Hlast.
    assert (Et : t = rev (dropwhile isspace (rev t)) ++ rev r).
    { rewrite <- (rev_involutive t), Er at 1. apply rev_app_distr. }
    destruct (rev (dropwhile isspace (rev t))) as [|c u] eqn:Eu; [exact I|].
    rewrite Et in Hhead. simpl in Hhead. assumption.
  - rewrite rev_involutive. apply dropwhile_head.
Qed.

Lemma split_strip (s : pystr) : split (strip s) = split s.
Proof.
  destruct (strip_decompose s) as (l & r & E & Hl & Hr & _).
  rewrite E at 2. unfold split.
  rewrite split_from_skip_space, split_from_trailing_space by assumption.
  reflexivity.
Qed.

Lemma split_join (words : list pystr) :
  Forall (fun w => is_token w = true) words ->
  split (join (str " ") words) = words.
Proof.
  unfold split. induction 1 as [|w ws Hw Hws IH]; simpl; [reflexivity|].
  apply is_token_spec in Hw as [Hne Hw].
  assert (Hlast : split_from [] w = [w]).
  { rewrite <- (app_nil_r w) at 1.
    rewrite split_from_read_word, app_nil_r by assumption. simpl.
    destruct (rev w) eqn:E.
    - apply (f_equal (@rev char)) in E. rewrite rev_involutive in E.
      simpl in E. congruence.
    - rewrite <- E, rev_involutive. reflexivity. }
  destruct ws as [|w' ws]; [assumption|].
  rewrite split_from_read_word, app_nil_r by assumption.
  change (str " " ++ join (str " ") (w' :: ws))
    with (0x20%N :: join (str " ") (w' :: ws)).
  cbn [split_from]. change (isspace 0x20%N) with true. cbv iota.
  destruct (rev w) eqn:E.
  - apply (f_equal (@rev char)) in E. rewrite rev_involutive in E.
    simpl in E. congruence.
  - rewrite <- E, rev_involutive, IH. reflexivity.
Qed.

(** ** The text normalizer *)

Lemma translate_delete_app (z a b : pystr) :
  translate_delete z (a ++ b) = translate_delete z a ++ translate_delete z b.
Proof. apply filter_app. Qed.

Lemma translate_delete_In (z text : pystr) (c : char) :
  In c (translate_delete z text) <-> In c text /\ ~ In c z.
Proof.
  unfold translate_delete. rewrite filter_In, negb_true_iff.
  pose proof (char_in_In c z) as Hz.
  destruct (char_in c z); split; intros [H1 H2]; split; auto;
    try discriminate.
  - exfalso. apply H2, Hz. reflexivity.
  - intros Hc. apply Hz in Hc. discriminate.
Qed.

Lemma punctuation_claimed (c : char) :
  In c punctuation <-> In c claimed_punctuation /\ c <> 0x201D%N.
Proof.
  unfold punctuation, claimed_punctuation. simpl. split.
  - intros H; repeat (destruct H as [<-|H]; [split; [tauto|discriminate]|]).
    contradiction.
  - intros [H Hne]. repeat (destruct H as [<-|H]; [tauto|]). contradiction.
Qed.

Section Normalizer.

Context {builtins : StrBuiltins}.

(** The steps of the normalizer.  It deletes the characters of the
    punctuation constant of [clean_text], which is the set of the
    specification without the closing curly quotation mark U+201D (the
    constant lists the straight double quote twice): a deleted character
    leaves nothing behind, so its neighbours become adjacent, and every
    other character is kept in place.  The result is lowercased, then
    trimmed of the whitespace at its two ends, then cut into its maximal
    whitespace-free runs; trimming does not change these, and no token is
    empty or contains whitespace. *)
Theorem normalizer_steps (text : pystr) :
  let deleted := translate_delete punctuation text in
  let lowered := str_lower deleted in
  (forall c, In c punctuation <-> In c claimed_punctuation /\ c <> 0x201D%N) /\
  (forall a c b, text = a ++ c :: b ->
     deleted
     = translate_delete punctuation a
       ++ (if char_in c punctuation then [] else [c])
       ++ translate_delete punctuation b) /\
  (forall c, In c deleted <-> In c text /\ ~ In c punctuation) /\
  clean_text text = strip lowered /\
  (exists l r,
     lowered = l ++ clean_text text ++ r /\
     all_space l = true /\ all_space r = true /\
     match clean_text text with [] => True | c :: _ => isspace c = false end /\
     match rev (clean_text text) with [] => True | c :: _ => isspace c = false end) /\
  normalize text = split lowered /\
  splits lowered (normalize text) /\
  (forall ws, splits lowered ws -> ws = normalize text) /\
  Forall (fun w => w <> [] /\ no_space w = true) (normalize text).
Proof.
  intros deleted lowered.
  assert (Hn : normalize text = split lowered).
  { unfold normalize, clean_text. apply split_strip. }
  split; [apply punctuation_claimed|].
  split.
  { intros a c b ->. subst deleted.
    rewrite translate_delete_app. f_equal.
    change (c :: b) with ([c] ++ b). rewrite translate_delete_app. f_equal.
    unfold translate_delete. cbn [filter].
    destruct (char_in c punctuation); reflexivity. }
  split; [intros c; apply translate_delete_In|].
  split; [reflexivity|].
  split; [apply strip_decompose|].
  split; [assumption|].
  split; [rewrite Hn; apply split_splits|].
  split; [intros ws Hws; rewrite Hn; symmetry; apply splits_unique; assumption|].
  rewrite Hn. eapply Forall_impl; [|apply split_tokens].
  intros w Hw. apply is_token_spec. assumption.
Qed.

End Normalizer.

(** C5.  The normalizer does not remove every quotation mark in curly
    form: on the paragraph made of U+201C, "Hi" and U+201D the deletion
    takes the opening mark away and leaves the closing one, which ends up
    in the token; so it is false that every character of the punctuation
    set the specification describes is removed from every text. *)
Theorem closing_curly_quote_kept :
  In 0x201D%N claimed_punctuation /\
  translate_delete punctuation ([0x201C%N] ++ str "Hi" ++ [0x201D%N])
  = str "Hi" ++ [0x201D%N] /\
  @normalize ascii_lower ([0x201C%N] ++ str "Hi" ++ [0x201D%N])
  = [str "hi" ++ [0x201D%N]] /\
  ~ (forall (text : pystr) (c : char),
       In c claimed_punctuation -> ~ In c (translate_delete punctuation text)).
Proof.
  split; [unfold claimed_punctuation; simpl; tauto|].
  split; [vm_compute; reflexivity|].
  split; [vm_compute; reflexivity|].
  intros H.
  apply (H ([0x201C] ++ str "Hi" ++ [0x201D])%N 0x201D%N).
  - unfold claimed_punctuation. simpl. tauto.
  - vm_compute. tauto.
Qed.

(** ** The table as a dictionary *)

Lemma dict_get_set_same (k : pystr) (v : list pystr) (d : dict) :
  dict_get k (dict_set k v d) = Some v.
Proof.
  induction d as [|[k' v'] d IH]; simpl.
  - rewrite pystr_eqb_refl; reflexivity.
  - destruct (pystr_eqb k k') eqn:E; simpl; rewrite E; auto.
Qed.

Lemma dict_get_set_other (k k' : pystr) (v : list pystr) (d : dict) :
  k' <> k -> dict_get k' (dict_set k v d) = dict_get k' d.
Proof.
  intros Hne. induction d as [|[k0 v0] d IH]; simpl.
  - apply pystr_eqb_neq in Hne. rewrite Hne. reflexivity.
  - destruct (pystr_eqb k k0) eqn:E; simpl.
    + apply pystr_eqb_eq in E; subst k0.
      apply pystr_eqb_neq in Hne. rewrite Hne. reflexivity.
    + destruct (pystr_eqb k' k0); auto.
Qed.

Lemma dict_get_In_keys (k : pystr) (d : dict) :
  dict_get k d <> None <-> In k (keys d).
Proof.
  induction d as [|[k' v'] d IH]; simpl.
  - split; [congruence | tauto].
  - destruct (pystr_eqb k k') eqn:E.
    + apply pystr_eqb_eq in E; subst. split; [auto | congruence].
    + apply pystr_eqb_neq in E. rewrite IH. split; [auto | intros [H|H]; congruence].
Qed.

Lemma dict_contains_keys (k : pystr) (d : dict) :
  dict_contains k d = true <-> In k (keys d).
Proof.
  rewrite <- dict_get_In_keys. unfold dict_contains.
  destruct (dict_get k d); split; congruence.
Qed.

Lemma keys_set_present (k : pystr) (v : list pystr) (d : dict) :
  In k (keys d) -> keys (dict_set k v d) = keys d.
Proof.
  induction d as [|[k' v'] d IH]; simpl; [tauto|].
  intros H. destruct (pystr_eqb k k') eqn:E; simpl; [reflexivity|].
  apply pystr_eqb_neq in E. f_equal. apply IH. destruct H; congruence.
Qed.

Lemma keys_set_absent (k : pystr) (v : list pystr) (d : dict) :
  ~ In k (keys d) -> dict_set k v d = d ++ [(k, v)].
Proof.
  induction d as [|[k' v'] d IH]; simpl; [reflexivity|].
  intros H. destruct (pystr_eqb k k') eqn:E.
  - apply pystr_eqb_eq in E. subst. tauto.
  - f_equal. apply IH. tauto.
Qed.

(** ** Running the build *)

Section Build.

Context {builtins : StrBuiltins} {random : RandomModule}.

Lemma set_word_pairs_same (s : state) : set_word_pairs (word_pairs s) s = s.
Proof. destruct s; reflexivity. Qed.

Lemma word_pairs_set (d : dict) (s : state) :
  word_pairs (set_word_pairs d s) = d.
Proof. reflexivity. Qed.

Lemma set_word_pairs_twice (d d' : dict) (s : state) :
  set_word_pairs d (set_word_pairs d' s) = set_word_pairs d s.
Proof. reflexivity. Qed.

Lemma list_getitem_nth {A} (l : list A) (i : nat) (dflt : A) (s : state) :
  i < List.length l -> list_getitem l (Z.of_nat i) s = (Ok (nth i l dflt), s).
Proof.
  intros Hi. unfold list_getitem.
  replace (Z.of_nat i <? 0)%Z with false by (symmetry; apply Z.ltb_ge; lia).
  replace ((0 <=? Z.of_nat i) && (Z.of_nat i <? Z.of_nat (List.length l)))%Z
    with true
    by (symmetry; apply andb_true_iff; split;
        [apply Z.leb_le | apply Z.ltb_lt]; lia).
  rewrite Nat2Z.id. rewrite (nth_error_nth' l dflt Hi). reflexivity.
Qed.

(** One iteration of the loop of lines 46-47 records one adjacency. *)
Lemma record_iteration (words : list pystr) (i : nat) (s : state) :
  S i < List.length words ->
  (first <- list_getitem words (Z.of_nat i) ;;
   _ <- defaultdict_getitem first ;;
   second <- list_getitem words (Z.of_nat i + 1) ;;
   entry_append first second) s
  = (Ok tt, set_word_pairs (record (word_pairs s) (pair_at words i)) s).
Proof.
  intros Hi. unfold bind at 1.
  rewrite (list_getitem_nth words _ [] s) by lia.
  unfold bind at 1. unfold defaultdict_getitem, bind at 1, gets.
  replace (Z.of_nat i + 1)%Z with (Z.of_nat (S i)) by lia.
  unfold record, successors, pair_at; simpl fst; simpl snd.
  destruct (dict_get (nth i words []) (word_pairs s)) as [v|] eqn:E.
  - unfold ret, bind.
    rewrite (list_getitem_nth words _ [] s) by lia.
    unfold entry_append, bind, gets. rewrite E. reflexivity.
  - unfold bind, modify, ret.
    rewrite (list_getitem_nth words _ [] _) by lia.
    unfold entry_append, bind, gets, modify.
    rewrite !word_pairs_set, dict_get_set_same, set_word_pairs_twice.
    simpl app. f_equal. f_equal.
    clear. induction (word_pairs s) as [|[k v] d IH]; simpl.
    + rewrite pystr_eqb_refl; reflexivity.
    + destruct (pystr_eqb (nth i words []) k) eqn:E; simpl; rewrite E;
        [reflexivity | f_equal; apply IH].
Qed.

Lemma record_indices (words : list pystr) (indices : list nat) (s : state) :
  Forall (fun i => S i < List.length words) indices ->
  for_each (map Z.of_nat indices) (fun i =>
    first <- list_getitem words i ;;
    _ <- defaultdict_getitem first ;;
    second <- list_getitem words (i + 1) ;;
    entry_append first second) s
  = (Ok tt,
     set_word_pairs
       (fold_left record (map (pair_at words) indices) (word_pairs s)) s).
Proof.
  revert s. induction indices as [|i indices IH]; intros s Hall; simpl.
  - unfold ret. rewrite set_word_pairs_same. reflexivity.
  - inversion Hall as [|? ? Hi Hrest]; subst.
    unfold bind at 1. rewrite (record_iteration words i s Hi).
    rewrite IH by assumption. reflexivity.
Qed.

Lemma process_paragraph_run (p : pystr) (s : state) :
  process_paragraph p s
  = (Ok tt,
     set_word_pairs (fold_left record (adjacent (normalize p)) (word_pairs s)) s).
Proof.
  unfold process_paragraph, py_range, adjacent, normalize.
  set (words := split (clean_text p)).
  replace (Z.to_nat (Z.of_nat (List.length words) - 1))
    with (List.length words - 1) by lia.
  apply record_indices.
  apply Forall_forall. intros i Hi. apply in_seq in Hi. lia.
Qed.

(** *** What recording does to the table *)

Lemma successors_record (d : dict) (a : pystr * pystr) (k : pystr) :
  successors k (record d a)
  = if pystr_eqb (fst a) k then successors k d ++ [snd a] else successors k d.
Proof.
  unfold record, successors at 1.
  destruct (pystr_eqb (fst a) k) eqn:E.
  - apply pystr_eqb_eq in E; subst k. rewrite dict_get_set_same. reflexivity.
  - apply pystr_eqb_neq in E. rewrite dict_get_set_other by congruence.
    reflexivity.
Qed.

Lemma successors_fold_record (l : list (pystr * pystr)) (d : dict) (k : pystr) :
  successors k (fold_left record l d)
  = successors k d ++ map snd (filter (fun a => pystr_eqb (fst a) k) l).
Proof.
  revert d. induction l as [|a l IH]; intros d; simpl.
  - rewrite app_nil_r; reflexivity.
  - rewrite IH, successors_record.
    destruct (pystr_eqb (fst a) k); simpl; [rewrite <- app_assoc|]; reflexivity.
Qed.

Lemma keys_record (d : dict) (a : pystr * pystr) :
  keys (record d a)
  = if dict_contains (fst a) d then keys d else keys d ++ [fst a].
Proof.
  unfold record. destruct (dict_contains (fst a) d) eqn:E.
  - apply keys_set_present. apply dict_contains_keys; assumption.
  - rewrite keys_set_absent.
    + unfold keys. rewrite map_app. reflexivity.
    + rewrite <- dict_contains_keys. congruence.
Qed.

Lemma keys_fold_record (l : list (pystr * pystr)) (d : dict) (k : pystr) :
  In k (keys (fold_left record l d)) <-> In k (keys d) \/ In k (map fst l).
Proof.
  revert d. induction l as [|a l IH]; intros d; simpl.
  - tauto.
  - rewrite IH, keys_record.
    destruct (dict_contains (fst a) d) eqn:E.
    + apply dict_contains_keys in E.
      split; [tauto | intros [H|[H|H]]; subst; auto].
    + rewrite in_app_iff. simpl. tauto.
Qed.

Lemma adjacency_count_set (k : pystr) (v : list pystr) (d : dict) :
  adjacency_count (dict_set k v d) + List.length (successors k d)
  = adjacency_count d + List.length v.
Proof.
  unfold adjacency_count, successors.
  induction d as [|[k' v'] d IH]; simpl.
  - lia.
  - destruct (pystr_eqb k k') eqn:E; simpl; lia.
Qed.

Lemma adjacency_count_record (d : dict) (a : pystr * pystr) :
  adjacency_count (record d a) = S (adjacency_count d).
Proof.
  unfold record.
  pose proof (adjacency_count_set (fst a) (successors (fst a) d ++ [snd a]) d) as H.
  rewrite length_app in H. simpl in H. lia.
Qed.

Lemma adjacency_count_fold_record (l : list (pystr * pystr)) (d : dict) :
  adjacency_count (fold_left record l d) = adjacency_count d + List.length l.
Proof.
  revert d. induction l as [|a l IH]; intros d; simpl.
  - lia.
  - rewrite IH, adjacency_count_record. lia.
Qed.

Lemma length_adjacent (words : list pystr) :
  List.length (adjacent words) = List.length words - 1.
Proof. unfold adjacent. rewrite length_map, length_seq. reflexivity. Qed.

Lemma nth_error_adjacent (words : list pystr) (i : nat) :
  S i < List.length words ->
  nth_error (adjacent words) i = Some (nth i words [], nth (S i) words []).
Proof.
  intros Hi. unfold adjacent.
  rewrite nth_error_map, nth_error_seq.
  destruct (Nat.ltb_spec i (List.length words - 1)); [reflexivity | lia].
Qed.

(** The body of the paragraph loop, lines 43-47, on one paragraph: it
    returns normally and records the adjacencies of the token sequence,
    in order. *)
Lemma paragraph_adds_adjacencies (p : pystr) (s : state) :
  let words := normalize p in
  let n := Z.of_nat (List.length words) in
  exists s',
    process_paragraph p s = (Ok tt, s') /\
    word_pairs s' = fold_left record (adjacent words) (word_pairs s) /\
    Z.of_nat (List.length (adjacent words)) = Z.max 0 (n - 1) /\
    (forall i, (0 <= i <= n - 2)%Z ->
       nth_error (adjacent words) (Z.to_nat i)
       = Some (nth (Z.to_nat i) words [], nth (Z.to_nat (i + 1)) words [])) /\
    (forall k,
       successors k (word_pairs s')
       = successors k (word_pairs s)
         ++ map snd (filter (fun a => pystr_eqb (fst a) k) (adjacent words))) /\
    (forall k, In k (keys (word_pairs s')) <->
       In k (keys (word_pairs s)) \/ In k (map fst (adjacent words))) /\
    Z.of_nat (adjacency_count (word_pairs s'))
    = (Z.of_nat (adjacency_count (word_pairs s)) + Z.max 0 (n - 1))%Z /\
    ((n < 2)%Z -> s' = s).
Proof.
  intros words n. eexists. split; [apply process_paragraph_run|].
  rewrite word_pairs_set. fold words.
  split; [reflexivity|].
  split; [rewrite length_adjacent; subst n; lia|].
  split.
  { intros i Hi. replace (Z.to_nat (i + 1)) with (S (Z.to_nat i)) by lia.
    apply nth_error_adjacent. subst n. lia. }
  split; [intros k; apply successors_fold_record|].
  split; [intros k; apply keys_fold_record|].
  split.
  { rewrite adjacency_count_fold_record, length_adjacent. subst n. lia. }
  intros Hn. unfold adjacent.
  replace (List.length words - 1) with 0 by (subst n; lia).
  simpl. apply set_word_pairs_same.
Qed.

(** *** The whole build *)

Lemma process_paragraphs_run (paragraphs : list pystr) (s : state) :
  for_each paragraphs process_paragraph s
  = (Ok tt,
     set_word_pairs
       (fold_left record (flat_map (fun p => adjacent (normalize p)) paragraphs)
          (word_pairs s)) s).
Proof.
  revert s. induction paragraphs as [|p ps IH]; intros s; simpl.
  - unfold ret. rewrite set_word_pairs_same. reflexivity.
  - unfold bind. rewrite process_paragraph_run, IH, fold_left_app. reflexivity.
Qed.

Lemma observed_cons (paragraphs : list pystr) (book : list (list pystr)) :
  observed (paragraphs :: book)
  = flat_map (fun p => adjacent (normalize p)) paragraphs ++ observed book.
Proof. unfold observed. simpl. apply flat_map_app. Qed.

Lemma process_documents_run (book : list document) (s : state) :
  for_each book process_document s
  = (match first_failure_in book with None => Ok tt | Some e => Raise e end,
     set_word_pairs
       (fold_left record (observed (decoded_prefix book)) (word_pairs s)) s).
Proof.
  revert s. induction book as [|[paragraphs|e] book IH]; intros s; simpl.
  - unfold ret. rewrite set_word_pairs_same. reflexivity.
  - unfold bind at 1, process_document, bind, lift.
    rewrite process_paragraphs_run, IH, observed_cons, fold_left_app.
    reflexivity.
  - unfold bind, process_document, bind, lift.
    rewrite set_word_pairs_same. reflexivity.
Qed.

(** The table a build leaves, whether it completes or not. *)
Lemma process_epub_run (source : epub_source) (s : state) :
  process_epub source s
  = match source with
    | Raise e => (Raise e, add_log (ERROR, ErrorProcessing e) s)
    | Ok book =>
        let d := fold_left record (observed (decoded_prefix book)) (word_pairs s) in
        let s1 := set_word_pairs d (add_log (INFO, ProcessingEpub) s) in
        match first_failure_in book with
        | None => (Ok tt, add_log (INFO, ProcessedUnique (List.length d)) s1)
        | Some e => (Raise e, add_log (ERROR, ErrorProcessing e) s1)
        end
    end.
Proof.
  unfold process_epub, try_except, bind, lift.
  destruct source as [book|e]; [|reflexivity].
  unfold logging_info at 1, modify.
  rewrite process_documents_run.
  destruct (first_failure_in book); reflexivity.
Qed.

Lemma process_epub_outcome (source : epub_source) (s : state) :
  fst (process_epub source s)
  = match first_failure source with None => Ok tt | Some e => Raise e end.
Proof.
  rewrite process_epub_run. destruct source as [book|e]; [|reflexivity].
  simpl. destruct (first_failure_in book); reflexivity.
Qed.

Lemma process_epub_table (source : epub_source) (s : state) :
  word_pairs (snd (process_epub source s))
  = match source with
    | Raise _ => word_pairs s
    | Ok book => fold_left record (observed (decoded_prefix book)) (word_pairs s)
    end.
Proof.
  rewrite process_epub_run. destruct source as [book|e]; [|reflexivity].
  simpl. destruct (first_failure_in book); reflexivity.
Qed.

Lemma process_epub_frame (source : epub_source) (s : state) :
  output_file (snd (process_epub source s)) = output_file s /\
  stdout (snd (process_epub source s)) = stdout s /\
  rand (snd (process_epub source s)) = rand s.
Proof.
  rewrite process_epub_run. destruct source as [book|e]; [|auto].
  simpl. destruct (first_failure_in book); auto.
Qed.

Lemma main_run (start_word : pystr) (length : Z) (configured : outcome unit)
    (source : epub_source) (opened : outcome unit)
    (printed : pystr -> outcome unit) (s : state) :
  main (Parsed start_word length) configured source opened printed s
  = match configured with
    | Raise e =>
        (1%Z, add_log (ERROR, ProgramFailed e) (set_word_pairs [] s))
    | Ok _ =>
        match process_epub source (set_word_pairs [] s) with
        | (Raise e, s1) => (1%Z, add_log (ERROR, ProgramFailed e) s1)
        | (Ok _, s1) =>
            match save_word_pairs opened s1 with
            | (Raise e, s2) => (1%Z, add_log (ERROR, ProgramFailed e) s2)
            | (Ok _, s2) =>
                match generate_text start_word length s2 with
                | (Raise e, s3) => (1%Z, add_log (ERROR, ProgramFailed e) s3)
                | (Ok text, s3) =>
                    match printed (0x0A%N :: str "Generated text:") with
                    | Raise e => (1%Z, add_log (ERROR, ProgramFailed e) s3)
                    | Ok _ =>
                        let s4 :=
                          add_stdout (0x0A%N :: str "Generated text:") s3 in
                        match printed text with
                        | Raise e =>
                            (1%Z, add_log (ERROR, ProgramFailed e) s4)
                        | Ok _ => (0%Z, add_stdout text s4)
                        end
                    end
                end
            end
        end
    end.
Proof.
  unfold main, init, setup_logging, py_print, bind, modify, lift.
  destruct configured as [u0|e]; [|reflexivity].
  destruct (process_epub source (set_word_pairs [] s)) as [[u|e] s1];
    [|reflexivity].
  destruct (save_word_pairs opened s1) as [[u'|e] s2]; [|reflexivity].
  destruct (generate_text start_word length s2) as [[text|e] s3];
    [|reflexivity].
  destruct (printed (0x0A%N :: str "Generated text:")) as [u1|e];
    [|reflexivity].
  destruct (printed text) as [u2|e]; reflexivity.
Qed.

(** C6.  A build whose decoding fails does not return: [process_epub]
    raises the very exception of the first failing decoding step, after
    logging it; it returns normally only when no step failed, and then
    the table holds every adjacency of the book.  What was recorded before
    the failure stays in the table, but the caller cannot take it for a
    completed build: in [main], once the arguments are parsed and the
    generator is constructed, the exception skips the export and the
    generation, nothing is written or printed, and the exit status is 1. *)
Theorem failed_build_raises (source : epub_source) (s : state) :
  (forall e, first_failure source = Some e ->
     exists s',
       process_epub source s = (Raise e, s') /\
       In (ERROR, ErrorProcessing e) (log s') /\
       word_pairs s'
       = match source with
         | Raise _ => word_pairs s
         | Ok book =>
             fold_left record (observed (decoded_prefix book)) (word_pairs s)
         end /\
       forall opened printed start_word length,
       exists s'',
         main (Parsed start_word length) (Ok tt) source opened printed s
         = (1%Z, s'') /\
         In (ERROR, ProgramFailed e) (log s'') /\
         output_file s'' = output_file s /\ stdout s'' = stdout s) /\
  (forall s', process_epub source s = (Ok tt, s') ->
     first_failure source = None /\
     exists book,
       source = Ok (map Ok book) /\
       word_pairs s' = fold_left record (observed book) (word_pairs s)) /\
  (first_failure source = None ->
     exists s', process_epub source s = (Ok tt, s')).
Proof.
  split; [|split].
  - intros e He.
    pose proof (process_epub_outcome source s) as Hout. rewrite He in Hout.
    destruct (process_epub source s) as [o s'] eqn:Hrun. simpl in Hout. subst o.
    exists s'. split; [reflexivity|]. split.
    { rewrite process_epub_run in Hrun. destruct source as [book|e0]; simpl in *.
      - rewrite He in Hrun. injection Hrun as <-. simpl.
        apply in_or_app; right; left; reflexivity.
      - injection He as ->. injection Hrun as <-. simpl.
        apply in_or_app; right; left; reflexivity. }
    split.
    { pose proof (process_epub_table source s) as Htab.
      rewrite Hrun in Htab. exact Htab. }
    intros opened printed start_word length. rewrite main_run.
    pose proof (process_epub_outcome source (set_word_pairs [] s)) as Hout'.
    pose proof (process_epub_frame source (set_word_pairs [] s)) as (Hf & Hp & _).
    rewrite He in Hout'.
    destruct (process_epub source (set_word_pairs [] s)) as [o s1].
    simpl in Hout', Hf, Hp. subst o.
    eexists. split; [reflexivity|]. simpl. repeat split; auto.
    apply in_or_app; right; left; reflexivity.
  - intros s' Hrun.
    pose proof (process_epub_outcome source s) as Hout.
    pose proof (process_epub_table source s) as Htab.
    rewrite Hrun in Hout, Htab. simpl in Hout, Htab.
    destruct (first_failure source) as [e|] eqn:He; [discriminate|].
    split; [reflexivity|].
    destruct source as [book|e]; [|discriminate]. simpl in He.
    exists (decoded_prefix book). split; [|assumption].
    f_equal. clear -He. induction book as [|[ps|e] book IH]; simpl in *;
      [reflexivity | f_equal; auto | discriminate].
  - intros He.
    pose proof (process_epub_outcome source s) as Hout. rewrite He in Hout.
    destruct (process_epub source s) as [o s']. simpl in Hout. subst o.
    exists s'. reflexivity.
Qed.

End Build.

(** ** Built tables *)

Lemma existsb_pystr_In (x : pystr) (l : list pystr) :
  existsb (pystr_eqb x) l = true <-> In x l.
Proof.
  rewrite existsb_exists. split.
  - intros (y & Hy & E). apply pystr_eqb_eq in E. subst; assumption.
  - intros H. exists x. split; [assumption | apply pystr_eqb_refl].
Qed.

Lemma first_seen_ext (seen seen' l : list pystr) :
  (forall x, In x seen <-> In x seen') -> first_seen seen l = first_seen seen' l.
Proof.
  revert seen seen'. induction l as [|x l IH]; intros seen seen' H; simpl.
  - reflexivity.
  - assert (E : existsb (pystr_eqb x) seen = existsb (pystr_eqb x) seen').
    { apply eq_true_iff_eq. rewrite !existsb_pystr_In. apply H. }
    rewrite E. destruct (existsb (pystr_eqb x) seen').
    + apply IH; assumption.
    + f_equal. apply IH. intros y. simpl. rewrite H. reflexivity.
Qed.

(** Keys stay in the order in which their entries were created. *)
Lemma keys_fold_record_order (l : list (pystr * pystr)) (d : dict) :
  keys (fold_left record l d) = keys d ++ first_seen (keys d) (map fst l).
Proof.
  revert d. induction l as [|a l IH]; intros d; simpl.
  - rewrite app_nil_r; reflexivity.
  - rewrite IH, keys_record. unfold dict_contains.
    destruct (dict_get (fst a) d) eqn:E.
    + assert (Hin : In (fst a) (keys d)) by (apply dict_get_In_keys; congruence).
      apply existsb_pystr_In in Hin. rewrite Hin. reflexivity.
    + assert (Hout : existsb (pystr_eqb (fst a)) (keys d) = false).
      { apply not_true_is_false. rewrite existsb_pystr_In, <- dict_get_In_keys.
        intros H; apply H; assumption. }
      rewrite Hout, <- app_assoc. simpl. do 2 f_equal.
      apply first_seen_ext. intros x. rewrite in_app_iff. simpl. tauto.
Qed.

Lemma NoDup_keys_record (d : dict) (a : pystr * pystr) :
  NoDup (keys d) -> NoDup (keys (record d a)).
Proof.
  intros H. rewrite keys_record. destruct (dict_contains (fst a) d) eqn:E.
  - assumption.
  - apply NoDup_app; [assumption | repeat constructor; auto |].
    intros x Hx [<-|[]]. apply dict_contains_keys in Hx. congruence.
Qed.

Lemma NoDup_keys_fold_record (l : list (pystr * pystr)) (d : dict) :
  NoDup (keys d) -> NoDup (keys (fold_left record l d)).
Proof.
  revert d. induction l as [|a l IH]; intros d H; simpl;
    [assumption | apply IH, NoDup_keys_record, H].
Qed.

Lemma nonempty_entries_record (d : dict) (a : pystr * pystr) :
  nonempty_entries d -> nonempty_entries (record d a).
Proof.
  intros H k v Hget. unfold record in Hget.
  destruct (pystr_eqb k (fst a)) eqn:E.
  - apply pystr_eqb_eq in E. subst k. rewrite dict_get_set_same in Hget.
    injection Hget as <-. intros E. apply app_eq_nil in E as [_ E]. discriminate.
  - apply pystr_eqb_neq in E. rewrite dict_get_set_other in Hget by assumption.
    apply (H k v Hget).
Qed.

Lemma nonempty_entries_fold_record (l : list (pystr * pystr)) (d : dict) :
  nonempty_entries d -> nonempty_entries (fold_left record l d).
Proof.
  revert d. induction l as [|a l IH]; intros d H; simpl;
    [assumption | apply IH, nonempty_entries_record, H].
Qed.

Lemma nonempty_entries_nil : nonempty_entries [].
Proof. intros k v H. discriminate. Qed.

Lemma dict_get_In (k : pystr) (v : list pystr) (d : dict) :
  dict_get k d = Some v -> In (k, v) d.
Proof.
  induction d as [|[k' v'] d IH]; simpl; [discriminate|].
  destruct (pystr_eqb k k') eqn:E.
  - apply pystr_eqb_eq in E. intros H. injection H as <-. subst. auto.
  - auto.
Qed.

Lemma In_dict_get (k : pystr) (v : list pystr) (d : dict) :
  NoDup (keys d) -> In (k, v) d -> dict_get k d = Some v.
Proof.
  induction d as [|[k' v'] d IH]; simpl; [tauto|].
  intros Hnd [H|H].
  - injection H as -> ->. rewrite pystr_eqb_refl. reflexivity.
  - inversion Hnd as [|? ? Hout Hnd']; subst.
    destruct (pystr_eqb k k') eqn:E; [|auto].
    apply pystr_eqb_eq in E. subst k'. exfalso. apply Hout.
    apply (in_map fst) in H. assumption.
Qed.







Lemma nonempty_entries_Forall (d : dict) :
  NoDup (keys d) -> nonempty_entries d -> Forall (fun item => snd item <> []) d.
Proof.
  intros Hnd Hne. apply Forall_forall. intros [k v] Hin. simpl.
  apply (Hne k v). apply In_dict_get; assumption.
Qed.

Lemma adjacent_tokens (words : list pystr) :
  Forall (fun w => is_token w = true) words ->
  Forall (fun a => is_token (fst a) = true /\ is_token (snd a) = true)
    (adjacent words).
Proof.
  intros Hall. rewrite Forall_forall in *. unfold adjacent.
  intros a Ha. apply in_map_iff in Ha as (i & <- & Hi). apply in_seq in Hi.
  unfold pair_at. simpl. split; apply Hall, nth_In; lia.
Qed.

Lemma tokens_only_record (d : dict) (a : pystr * pystr) :
  is_token (fst a) = true -> is_token (snd a) = true ->
  tokens_only d -> tokens_only (record d a).
Proof.
  intros Hk Hw Hd. unfold record.
  assert (Hv : Forall (fun w => is_token w = true)
                 (successors (fst a) d ++ [snd a])).
  { apply Forall_app. split; [|repeat constructor; assumption].
    unfold successors. destruct (dict_get (fst a) d) eqn:E; [|constructor].
    apply dict_get_In in E. unfold tokens_only in Hd.
    rewrite Forall_forall in Hd. apply (Hd _ E). }
  revert Hv. generalize (successors (fst a) d ++ [snd a]). intros v Hv.
  unfold tokens_only in *. induction Hd as [|[k' v'] d Hitem Hd IH]; simpl.
  - repeat constructor; assumption.
  - destruct (pystr_eqb (fst a) k'); constructor; auto.
    simpl in *. tauto.
Qed.

Lemma tokens_only_fold_record (l : list (pystr * pystr)) (d : dict) :
  Forall (fun a => is_token (fst a) = true /\ is_token (snd a) = true) l ->
  tokens_only d -> tokens_only (fold_left record l d).
Proof.
  revert d. induction l as [|a l IH]; intros d Hl Hd; simpl; [assumption|].
  inversion Hl as [|? ? [Hk Hw] Hl']; subst.
  apply IH; [assumption | apply tokens_only_record; assumption].
Qed.

Section Tables.

Context {builtins : StrBuiltins} {random : RandomModule}.

Lemma observed_tokens (book : list (list pystr)) :
  Forall (fun a => is_token (fst a) = true /\ is_token (snd a) = true)
    (observed book).
Proof.
  unfold observed. apply Forall_flat_map, Forall_forall. intros p _.
  apply adjacent_tokens, split_tokens.
Qed.

Lemma first_failure_decoded (book : list (list pystr)) :
  first_failure_in (map Ok book) = None /\ decoded_prefix (map Ok book) = book.
Proof.
  induction book as [|ps book [IH1 IH2]]; simpl; [auto|].
  split; [assumption | f_equal; assumption].
Qed.

Lemma process_epub_decoded (book : list (list pystr)) (s : state) :
  process_epub (Ok (map Ok book)) s
  = (Ok tt,
     add_log (INFO, ProcessedUnique
                (List.length (fold_left record (observed book) (word_pairs s))))
       (set_word_pairs (fold_left record (observed book) (word_pairs s))
          (add_log (INFO, ProcessingEpub) s))).
Proof.
  rewrite process_epub_run.
  destruct (first_failure_decoded book) as [-> ->]. reflexivity.
Qed.

(** A built table is the fold of [record] over what was observed. *)
Lemma built_from_fold (book : list (list pystr)) (d : dict) :
  built_from book d -> d = fold_left record (observed book) [].
Proof.
  intros (s0 & s1 & H0 & Hrun & <-).
  rewrite process_epub_decoded in Hrun. injection Hrun as <-.
  simpl. rewrite H0. reflexivity.
Qed.

Lemma built_from_invariants (book : list (list pystr)) (d : dict) :
  built_from book d ->
  NoDup (keys d) /\ nonempty_entries d /\ tokens_only d.
Proof.
  intros H. apply built_from_fold in H. subst d. split; [|split].
  - apply NoDup_keys_fold_record. constructor.
  - apply nonempty_entries_fold_record, nonempty_entries_nil.
  - apply tokens_only_fold_record; [apply observed_tokens | constructor].
Qed.

End Tables.

(** ** Export *)





Lemma rows_encodable_app (a b : list row) :
  rows_encodable (a ++ b) = rows_encodable a && rows_encodable b.
Proof. apply forallb_app. Qed.

Lemma encodable_prefix_all (rows : list row) :
  rows_encodable rows = true -> encodable_prefix rows = rows.
Proof.
  induction rows as [|r rows IH]; simpl; [reflexivity|].
  intros H. apply andb_true_iff in H as [Hr Hrows].
  rewrite Hr, IH by assumption. reflexivity.
Qed.

Lemma encodable_prefix_app (a b : list row) :
  encodable_prefix (a ++ b)
  = if rows_encodable a then a ++ encodable_prefix b else encodable_prefix a.
Proof.
  induction a as [|r a IH]; simpl; [reflexivity|].
  destruct (forallb encodable r); simpl; [|reflexivity].
  rewrite IH. destruct (rows_encodable a); reflexivity.
Qed.


Section Exporting.

Context {builtins : StrBuiltins} {random : RandomModule}.

Lemma set_output_file_same (rows : list row) (s : state) :
  output_file s = Some rows -> set_output_file (Some rows) s = s.
Proof. destruct s; simpl; intros ->; reflexivity. Qed.

Lemma write_entry (k : pystr) (v : list pystr) (rows : list row) (s : state) :
  output_file s = Some rows ->
  for_each v (fun second_word => writerow [k; second_word]) s
  = (if rows_encodable (map (fun w => [k; w]) v)
     then Ok tt else Raise UnicodeEncodeError,
     set_output_file
       (Some (rows ++ encodable_prefix (map (fun w => [k; w]) v))) s).
Proof.
  revert rows s. induction v as [|w v IH]; intros rows s Hs.
  - simpl. unfold ret. rewrite app_nil_r, set_output_file_same by assumption.
    reflexivity.
  - cbn [for_each map rows_encodable encodable_prefix forallb].
    fold (rows_encodable (map (fun w0 => [k; w0]) v)).
    unfold bind, writerow at 1.
    destruct (forallb encodable [k; w]) eqn:E; cbn [forallb] in E; rewrite E.
    + unfold modify. rewrite Hs.
      rewrite (IH (rows ++ [[k; w]])) by reflexivity.
      rewrite <- app_assoc. reflexivity.
    + unfold raise. rewrite app_nil_r, set_output_file_same by assumption.
      reflexivity.
Qed.

Lemma write_items (d : dict) (rows : list row) (s : state) :
  output_file s = Some rows ->
  for_each d (fun '(first_word, second_words) =>
    for_each second_words (fun second_word =>
      writerow [first_word; second_word])) s
  = (if rows_encodable (pair_rows d) then Ok tt else Raise UnicodeEncodeError,
     set_output_file (Some (rows ++ encodable_prefix (pair_rows d))) s).
Proof.
  revert rows s. induction d as [|[k v] d IH]; intros rows s Hs.
  - simpl. unfold ret. rewrite app_nil_r, set_output_file_same by assumption.
    reflexivity.
  - change (pair_rows ((k, v) :: d))
      with (map (fun w => [k; w]) v ++ pair_rows d).
    rewrite rows_encodable_app, encodable_prefix_app.
    cbn [for_each]. unfold bind. rewrite (write_entry k v rows s Hs).
    destruct (rows_encodable (map (fun w => [k; w]) v)) eqn:E.
    + rewrite (encodable_prefix_all _ E).
      rewrite (IH (rows ++ map (fun w => [k; w]) v)) by reflexivity.
      rewrite <- app_assoc. reflexivity.
    + reflexivity.
Qed.

(** The export, whatever the table: the rows reach the file up to the
    first one that cannot be encoded. *)
Lemma save_word_pairs_run (opened : outcome unit) (s : state) :
  save_word_pairs opened s
  = match opened with
    | Ok _ =>
        let rows := pair_rows (word_pairs s) in
        let s' :=
          set_output_file
            (Some ([str "first"; str "last"] :: encodable_prefix rows)) s in
        if rows_encodable rows
        then (Ok tt, add_log (INFO, SavedPairs) s')
        else (Raise UnicodeEncodeError,
              add_log (ERROR, ErrorSaving UnicodeEncodeError) s')
    | Raise e => (Raise e, add_log (ERROR, ErrorSaving e) s)
    end.
Proof.
  unfold save_word_pairs, try_except, open_w.
  destruct opened as [[]|e]; [|reflexivity].
  unfold bind at 1. unfold bind at 1. unfold lift, modify at 1.
  unfold bind at 1, writerow at 1.
  change (forallb encodable [str "first"; str "last"]) with true. cbv iota.
  unfold modify at 1.
  unfold bind at 1, gets at 1.
  unfold bind at 1.
  erewrite write_items by reflexivity.
  cbn [word_pairs set_output_file output_file]. cbv zeta.
  destruct (rows_encodable (pair_rows (word_pairs s))); reflexivity.
Qed.

Lemma save_word_pairs_encodable (s : state) :
  rows_encodable (pair_rows (word_pairs s)) = true ->
  save_word_pairs (Ok tt) s
  = (Ok tt,
     add_log (INFO, SavedPairs)
       (set_output_file
          (Some ([str "first"; str "last"] :: pair_rows (word_pairs s))) s)).
Proof.
  intros H. rewrite save_word_pairs_run. cbv zeta.
  rewrite H, (encodable_prefix_all _ H). reflexivity.
Qed.

Lemma save_word_pairs_table (opened : outcome unit) (s : state) :
  word_pairs (snd (save_word_pairs opened s)) = word_pairs s /\
  stdout (snd (save_word_pairs opened s)) = stdout s /\
  rand (snd (save_word_pairs opened s)) = rand s.
Proof.
  rewrite save_word_pairs_run. destruct opened as [u|e]; [|auto].
  cbv zeta. destruct (rows_encodable (pair_rows (word_pairs s))); auto.
Qed.

End Exporting.

(** ** Generation *)

Section Generation.

Context {builtins : StrBuiltins} {random : RandomModule}.

Lemma only_rand_changed_refl (s : state) : only_rand_changed s s.
Proof. repeat split. Qed.

Lemma only_rand_changed_trans (s1 s2 s3 : state) :
  only_rand_changed s1 s2 -> only_rand_changed s2 s3 -> only_rand_changed s1 s3.
Proof.
  unfold only_rand_changed. intros (A1 & B1 & C1 & D1) (A2 & B2 & C2 & D2).
  repeat split; congruence.
Qed.

Lemma list_getitem_state {A} (l : list A) (i : Z) (s : state) :
  snd (list_getitem l i s) = s.
Proof.
  unfold list_getitem.
  destruct ((0 <=? (if (i <? 0)%Z then (i + Z.of_nat (List.length l))%Z else i))
            && ((if (i <? 0)%Z then (i + Z.of_nat (List.length l))%Z else i)
                <? Z.of_nat (List.length l)))%Z; [|reflexivity].
  destruct (nth_error l _); reflexivity.
Qed.

Lemma random_choice_frame (entry : list pystr) (s : state) :
  only_rand_changed s (snd (random_choice entry s)).
Proof.
  unfold random_choice. destruct entry as [|x entry].
  - apply only_rand_changed_refl.
  - unfold bind, gets.
    destruct (randbelow (List.length (x :: entry)) (rand s)) as [i g'].
    unfold modify. rewrite (surjective_pairing (list_getitem _ _ _)).
    rewrite list_getitem_state.
    destruct (fst _); repeat split.
Qed.

(** On a non-empty sequence [random.choice] returns one of its elements. *)
Lemma random_choice_nonempty (entry : list pystr) (s : state) :
  entry <> [] ->
  exists w s',
    random_choice entry s = (Ok w, s') /\ In w entry /\ only_rand_changed s s'.
Proof.
  intros Hne. destruct entry as [|x entry]; [congruence|].
  unfold random_choice, bind, gets.
  assert (Hlt : fst (randbelow (List.length (x :: entry)) (rand s))
                < List.length (x :: entry))
    by (apply randbelow_lt; simpl; lia).
  destruct (randbelow (List.length (x :: entry)) (rand s)) as [i g'].
  simpl fst in Hlt. unfold modify.
  rewrite (list_getitem_nth (x :: entry) _ [] _ Hlt).
  exists (nth i (x :: entry) []), (set_rand g' s).
  split; [reflexivity|]. split; [apply nth_In; assumption | repeat split].
Qed.

Lemma defaultdict_getitem_present (k : pystr) (v : list pystr) (s : state) :
  dict_get k (word_pairs s) = Some v -> defaultdict_getitem k s = (Ok v, s).
Proof.
  intros E. unfold defaultdict_getitem, bind, gets. rewrite E. reflexivity.
Qed.

Lemma generate_step_frame (x : Z) (locals : list pystr * pystr) (s : state) :
  only_rand_changed s (snd (generate_step x locals s)).
Proof.
  destruct locals as [generated_words current_word].
  unfold generate_step, bind, gets, dict_contains.
  destruct (dict_get current_word (word_pairs s)) as [entry|] eqn:E; unfold negb;
    cbv iota; [|apply only_rand_changed_refl].
  rewrite (defaultdict_getitem_present current_word entry s E).
  pose proof (random_choice_frame entry s) as H.
  destruct (random_choice entry s) as [[w|e] s']; exact H.
Qed.

Lemma generate_step_run (x : Z) (generated_words : list pystr)
    (current_word : pystr) (s : state) :
  nonempty_entries (word_pairs s) ->
  (dict_contains current_word (word_pairs s) = false /\
   generate_step x (generated_words, current_word) s
   = (Ok (Break (generated_words, current_word)), s)) \/
  (exists w s',
     generate_step x (generated_words, current_word) s
     = (Ok (Continue (generated_words ++ [w], w)), s') /\
     In w (successors current_word (word_pairs s)) /\
     only_rand_changed s s').
Proof.
  intros Hne. unfold generate_step, bind, gets, dict_contains, successors.
  destruct (dict_get current_word (word_pairs s)) as [entry|] eqn:E; unfold negb;
    cbv iota; [right | left; split; reflexivity].
  rewrite (defaultdict_getitem_present current_word entry s E).
  destruct (random_choice_nonempty entry s (Hne _ _ E))
    as (w & s' & Hrun & Hin & Hfr).
  rewrite Hrun. exists w, s'. repeat split; try assumption; apply Hfr.
Qed.

Lemma last_cons (w dflt : pystr) (l : list pystr) :
  last (w :: l) dflt = last l w.
Proof.
  revert w dflt. induction l as [|y l IH]; intros w dflt; [reflexivity|].
  change (last (w :: y :: l) dflt) with (last (y :: l) dflt).
  rewrite IH. symmetry. apply IH.
Qed.

Lemma for_break_cons {A L} (x : A) (xs : list A)
    (body : A -> L -> M (flow L)) (locals : L) (s : state) :
  for_break (x :: xs) body locals s
  = match body x locals s with
    | (Ok (Continue locals'), s1) => for_break xs body locals' s1
    | (Ok (Break locals'), s1) => (Ok locals', s1)
    | (Raise e, s1) => (Raise e, s1)
    end.
Proof.
  simpl. unfold bind. destruct (body x locals s) as [[[l|l]|e] s1]; reflexivity.
Qed.

(** The loop of [generate_text] on a table without empty entries. *)
Lemma walk_loop (xs : list Z) (generated_words : list pystr)
    (current_word : pystr) (s : state) :
  nonempty_entries (word_pairs s) ->
  exists rest s',
    for_break xs generate_step (generated_words, current_word) s
    = (Ok (generated_words ++ rest, last rest current_word), s') /\
    only_rand_changed s s' /\
    walk_in (word_pairs s) current_word rest /\
    List.length rest <= List.length xs /\
    (List.length rest < List.length xs ->
     dict_contains (last rest current_word) (word_pairs s) = false).
Proof.
  revert generated_words current_word s.
  induction xs as [|x xs IH]; intros generated_words current_word s Hne.
  - exists [], s. simpl. rewrite app_nil_r.
    repeat split; auto; lia.
  - rewrite for_break_cons.
    destruct (generate_step_run x generated_words current_word s Hne)
      as [[Hout Hrun] | (w & s1 & Hrun & Hin & Hfr)]; rewrite Hrun.
    + exists [], s. simpl. rewrite app_nil_r.
      repeat split; auto; lia.
    + assert (Hne1 : nonempty_entries (word_pairs s1))
        by (destruct Hfr as [-> _]; assumption).
      destruct (IH (generated_words ++ [w]) w s1 Hne1)
        as (rest & s' & Hloop & Hfr' & Hwalk & Hlen & Hstop).
      exists (w :: rest), s'. rewrite Hloop, <- app_assoc, last_cons.
      destruct Hfr as (Ht & Hrest). rewrite Ht in Hwalk, Hstop.
      split; [reflexivity|].
      split; [apply (only_rand_changed_trans _ _ _ (conj Ht Hrest) Hfr')|].
      split; [split; assumption|].
      simpl. split; [lia | intros H; apply Hstop; lia].
Qed.

Lemma for_break_frame (xs : list Z) (locals : list pystr * pystr) (s : state) :
  only_rand_changed s (snd (for_break xs generate_step locals s)).
Proof.
  revert locals s. induction xs as [|x xs IH]; intros locals s.
  - apply only_rand_changed_refl.
  - rewrite for_break_cons.
    pose proof (generate_step_frame x locals s) as H.
    destruct (generate_step x locals s) as [[[l|l]|e] s1]; simpl in H;
      try exact H.
    apply (only_rand_changed_trans _ _ _ H (IH l s1)).
Qed.

Lemma length_py_range (n : Z) : List.length (py_range n) = Z.to_nat n.
Proof. unfold py_range. rewrite length_map, length_seq. reflexivity. Qed.

Lemma generate_text_unknown (start_word : pystr) (length : Z) (s : state) :
  dict_contains start_word (word_pairs s) = false ->
  generate_text start_word length s = (Raise (ValueError start_word), s).
Proof.
  intros H. unfold generate_text, bind, gets. rewrite H. reflexivity.
Qed.

Lemma generate_text_run (start_word : pystr) (length : Z) (s : state) :
  nonempty_entries (word_pairs s) ->
  dict_contains start_word (word_pairs s) = true ->
  exists rest s',
    generate_text start_word length s
    = (Ok (join (str " ") (start_word :: rest)), s') /\
    only_rand_changed s s' /\
    walk_in (word_pairs s) start_word rest /\
    List.length rest <= Z.to_nat (length - 1) /\
    (List.length rest < Z.to_nat (length - 1) ->
     dict_contains (last rest start_word) (word_pairs s) = false).
Proof.
  intros Hne Hin. unfold generate_text, bind at 1, gets. rewrite Hin.
  unfold negb. cbv iota. unfold try_except, bind.
  destruct (walk_loop (py_range (length - 1)) [start_word] start_word s Hne)
    as (rest & s' & Hloop & Hfr & Hwalk & Hlen & Hstop).
  rewrite Hloop. rewrite length_py_range in Hlen, Hstop.
  exists rest, s'. repeat split; try assumption; apply Hfr.
Qed.

Lemma generate_text_frame (start_word : pystr) (length : Z) (s : state) :
  word_pairs (snd (generate_text start_word length s)) = word_pairs s.
Proof.
  unfold generate_text, bind at 1, gets.
  destruct (dict_contains start_word (word_pairs s)); unfold negb; cbv iota;
    [|reflexivity].
  unfold try_except, bind.
  pose proof (for_break_frame (py_range (length - 1))
                ([start_word], start_word) s) as (H & _).
  destruct (for_break _ _ _ s) as [[l|e] s1]; exact H.
Qed.

End Generation.

Lemma walk_in_nth (d : dict) (rest : list pystr) (current a b : pystr) (i : nat) :
  walk_in d current rest ->
  nth_error (current :: rest) i = Some a ->
  nth_error (current :: rest) (S i) = Some b ->
  In b (successors a d).
Proof.
  revert current i. induction rest as [|w rest IH]; intros current i Hwalk Ha Hb.
  - destruct i; discriminate.
  - destruct Hwalk as [Hw Hwalk]. destruct i as [|i].
    + simpl in Ha, Hb. injection Ha as <-. injection Hb as <-. assumption.
    + apply (IH w i Hwalk); assumption.
Qed.

Lemma walk_in_tokens (d : dict) (rest : list pystr) (current : pystr) :
  tokens_only d -> walk_in d current rest ->
  Forall (fun w => is_token w = true) rest.
Proof.
  intros Hd. revert current. induction rest as [|w rest IH]; intros current Hwalk.
  - constructor.
  - destruct Hwalk as [Hw Hwalk]. constructor; [|apply (IH w Hwalk)].
    unfold successors in Hw.
    destruct (dict_get current d) eqn:E; [|contradiction].
    apply dict_get_In in E. unfold tokens_only in Hd.
    rewrite Forall_forall in Hd. destruct (Hd _ E) as [_ Hv].
    rewrite Forall_forall in Hv. apply Hv. assumption.
Qed.

Lemma key_is_token (d : dict) (k : pystr) :
  tokens_only d -> dict_contains k d = true -> is_token k = true.
Proof.
  intros Hd Hk. unfold dict_contains in Hk.
  destruct (dict_get k d) eqn:E; [|discriminate].
  apply dict_get_In in E. unfold tokens_only in Hd.
  rewrite Forall_forall in Hd. apply (Hd _ E).
Qed.

Section GenerationClaims.

Context {builtins : StrBuiltins} {random : RandomModule}.

(** C2.  On a built table, for a start token that is a key and a length
    L >= 1, [generate_text] returns the join by single spaces of a word
    sequence that splits back into exactly these words, has between 1
    and L of them, starts with the start token, and in which each word
    is one of the successors recorded for the word before it.  When the
    sequence has fewer than L words its last word has no entry (so the
    walk goes on whenever the current word has an entry and fewer than L
    words were produced), and for L = 1 the result is the start token. *)
Theorem generate_walk (book : list (list pystr)) (s : state)
    (start_word : pystr) (length : Z) :
  built_from book (word_pairs s) ->
  dict_contains start_word (word_pairs s) = true ->
  (1 <= length)%Z ->
  exists words s',
    generate_text start_word length s = (Ok (join (str " ") words), s') /\
    split (join (str " ") words) = words /\
    (1 <= Z.of_nat (List.length words) <= length)%Z /\
    hd_error words = Some start_word /\
    (forall i a b,
       nth_error words i = Some a -> nth_error words (S i) = Some b ->
       exists entry, dict_get a (word_pairs s) = Some entry /\ In b entry) /\
    ((Z.of_nat (List.length words) < length)%Z ->
     dict_contains (last words []) (word_pairs s) = false) /\
    (length = 1%Z -> join (str " ") words = start_word).
Proof.
  intros Hbuilt Hin Hlen.
  destruct (built_from_invariants _ _ Hbuilt) as (Hnd & Hne & Htok).
  destruct (generate_text_run start_word length s Hne Hin)
    as (rest & s' & Hrun & _ & Hwalk & Hmax & Hstop).
  exists (start_word :: rest), s'.
  split; [assumption|].
  split.
  { apply split_join. constructor.
    - apply (key_is_token _ _ Htok Hin).
    - apply (walk_in_tokens _ _ _ Htok Hwalk). }
  split; [simpl List.length; lia|].
  split; [reflexivity|].
  split.
  { intros i a b Ha Hb.
    pose proof (walk_in_nth _ _ _ _ _ _ Hwalk Ha Hb) as Hsucc.
    unfold successors in Hsucc.
    destruct (dict_get a (word_pairs s)) as [entry|]; [|contradiction].
    exists entry. split; [reflexivity | assumption]. }
  split.
  { intros Hshort. rewrite last_cons. apply Hstop.
    simpl List.length in Hshort. lia. }
  intros ->. simpl in Hmax. destruct rest; [reflexivity | simpl in Hmax; lia].
Qed.

(** C3.  On a built table, [generate_text] raises if and only if the
    start token is not a key.  The exception is then the "not found"
    [ValueError] carrying the start token, and it is raised first: the
    state is untouched, nothing was drawn, logged, written or printed.
    With a start token that is a key the call returns for every length,
    also when the walk ends before the requested length at a word
    without entry; the words produced so far are the result. *)
Theorem generate_not_found (book : list (list pystr)) (s : state)
    (start_word : pystr) (length : Z) :
  built_from book (word_pairs s) ->
  (dict_contains start_word (word_pairs s) = false ->
   generate_text start_word length s = (Raise (ValueError start_word), s)) /\
  (dict_contains start_word (word_pairs s) = true ->
   exists rest s',
     generate_text start_word length s
     = (Ok (join (str " ") (start_word :: rest)), s') /\
     walk_in (word_pairs s) start_word rest /\
     (Z.of_nat (List.length rest) <= Z.max 0 (length - 1))%Z /\
     ((Z.of_nat (List.length rest) < length - 1)%Z ->
      dict_contains (last rest start_word) (word_pairs s) = false)) /\
  ((exists e s', generate_text start_word length s = (Raise e, s')) <->
   dict_contains start_word (word_pairs s) = false).
Proof.
  intros Hbuilt.
  destruct (built_from_invariants _ _ Hbuilt) as (Hnd & Hne & Htok).
  assert (Hknown : dict_contains start_word (word_pairs s) = true ->
    exists rest s',
      generate_text start_word length s
      = (Ok (join (str " ") (start_word :: rest)), s') /\
      walk_in (word_pairs s) start_word rest /\
      (Z.of_nat (List.length rest) <= Z.max 0 (length - 1))%Z /\
      ((Z.of_nat (List.length rest) < length - 1)%Z ->
       dict_contains (last rest start_word) (word_pairs s) = false)).
  { intros Hin.
    destruct (generate_text_run start_word length s Hne Hin)
      as (rest & s' & Hrun & _ & Hwalk & Hmax & Hstop).
    exists rest, s'. repeat split; try assumption; [lia|].
    intros H. apply Hstop. lia. }
  split; [apply generate_text_unknown|]. split; [assumption|].
  split.
  - intros (e & s' & Hraise).
    destruct (dict_contains start_word (word_pairs s)) eqn:Hin; [|reflexivity].
    destruct (Hknown eq_refl) as (rest & s'' & Hrun & _). congruence.
  - intros Hout. exists (ValueError start_word), s.
    apply generate_text_unknown. assumption.
Qed.

(** C8.  No sequence of exports and generations changes the table,
    whatever the table, the start tokens (keys or not), the lengths and
    the fate of the calls: keys, their order and every successor
    sequence are what they were. *)
Theorem export_generate_read_only (calls : list call) (s : state) :
  word_pairs (run_calls calls s) = word_pairs s.
Proof.
  unfold run_calls. revert s.
  induction calls as [|c calls IH]; intros s; simpl; [reflexivity|].
  rewrite IH. destruct c as [opened | start_word length]; simpl.
  - apply save_word_pairs_table.
  - apply generate_text_frame.
Qed.

(** C9.  The table of a new generator has no empty entry, and none of
    the three operations creates one, whether it returns or raises:
    [process_epub] only appends to entries, [save_word_pairs] and
    [generate_text] leave the table alone.  So for every key found in such
    a table [random.choice] gets a non-empty sequence and returns one of
    its elements. *)
Theorem entries_never_empty :
  nonempty_entries [] /\
  (forall source s,
     nonempty_entries (word_pairs s) ->
     nonempty_entries (word_pairs (snd (process_epub source s)))) /\
  (forall opened s,
     nonempty_entries (word_pairs s) ->
     nonempty_entries (word_pairs (snd (save_word_pairs opened s)))) /\
  (forall start_word length s,
     nonempty_entries (word_pairs s) ->
     nonempty_entries (word_pairs (snd (generate_text start_word length s)))) /\
  (forall s k entry,
     nonempty_entries (word_pairs s) ->
     dict_get k (word_pairs s) = Some entry ->
     entry <> [] /\
     exists w s', random_choice entry s = (Ok w, s') /\ In w entry).
Proof.
  split; [apply nonempty_entries_nil|].
  split.
  { intros source s H. rewrite process_epub_table.
    destruct source; [apply nonempty_entries_fold_record|]; assumption. }
  split.
  { intros opened s H.
    destruct (save_word_pairs_table opened s) as [-> _]. assumption. }
  split.
  { intros start_word length s H. rewrite generate_text_frame. assumption. }
  intros s k entry H Hget. split; [apply (H _ _ Hget)|].
  destruct (random_choice_nonempty entry s (H _ _ Hget)) as (w & s' & Hrun & Hin & _).
  exists w, s'. split; assumption.
Qed.

(** C10.  For a length L <= 0 and a start token that is a key,
    [generate_text] does not raise and returns the start token alone,
    leaving the state as it was. *)
Theorem generate_nonpositive_length (s : state) (start_word : pystr)
    (length : Z) :
  (length <= 0)%Z ->
  dict_contains start_word (word_pairs s) = true ->
  generate_text start_word length s = (Ok start_word, s).
Proof.
  intros Hlen Hin. unfold generate_text, bind at 1, gets. rewrite Hin.
  unfold negb. cbv iota. unfold py_range.
  replace (Z.to_nat (length - 1)) with 0 by lia. reflexivity.
Qed.

End GenerationClaims.

(** ** Further properties of the table and of the export *)

Lemma In_adjacent (words : list pystr) (k w : pystr) :
  In (k, w) (adjacent words) <->
  exists i, nth_error words i = Some k /\ nth_error words (S i) = Some w.
Proof.
  unfold adjacent. rewrite in_map_iff. split.
  - intros (i & E & Hi). apply in_seq in Hi. exists i.
    unfold pair_at in E. injection E as <- <-.
    split; apply nth_error_nth'; lia.
  - intros (i & Hk & Hw). exists i.
    assert (Hlt : S i < List.length words)
      by (apply nth_error_Some; congruence).
    split; [|apply in_seq; lia].
    unfold pair_at. f_equal; apply nth_error_nth; assumption.
Qed.

Section TableContents.

Context {builtins : StrBuiltins} {random : RandomModule}.

(** In a table built from a book, [w] is a successor of [k] exactly when
    some paragraph of the book has [k] immediately followed by [w] in its
    token sequence, and [k] is a key exactly when it has a successor: no
    adjacency joins two paragraphs. *)
Theorem table_holds_paragraph_adjacencies (book : list (list pystr))
    (d : dict) :
  built_from book d ->
  forall k,
    (forall w,
       In w (successors k d) <->
       exists paragraphs p i,
         In paragraphs book /\ In p paragraphs /\
         nth_error (normalize p) i = Some k /\
         nth_error (normalize p) (S i) = Some w) /\
    (In k (keys d) <-> exists w, In w (successors k d)).
Proof.
  intros Hbuilt k.
  destruct (built_from_invariants _ _ Hbuilt) as (_ & Hne & _).
  apply built_from_fold in Hbuilt. split.
  - intros w. rewrite Hbuilt, successors_fold_record. simpl.
    rewrite in_map_iff. split.
    + intros ([k' w'] & E & Hin). simpl in E. subst w'.
      apply filter_In in Hin as [Hin Hk]. simpl in Hk.
      apply pystr_eqb_eq in Hk. subst k'.
      unfold observed in Hin. apply in_flat_map in Hin as (p & Hp & Hin).
      apply in_concat in Hp as (paragraphs & Hps & Hp).
      apply In_adjacent in Hin as (i & Hi & Hi').
      exists paragraphs, p, i. auto.
    + intros (paragraphs & p & i & Hps & Hp & Hi & Hi').
      exists (k, w). split; [reflexivity|].
      apply filter_In. split; [|apply pystr_eqb_refl].
      unfold observed. apply in_flat_map. exists p. split.
      * apply in_concat. exists paragraphs. auto.
      * apply In_adjacent. exists i. auto.
  - rewrite <- dict_get_In_keys. unfold successors.
    destruct (dict_get k d) as [v|] eqn:E.
    + split; [intros _ | congruence].
      destruct v as [|w v]; [exfalso; apply (Hne _ _ E); reflexivity|].
      exists w. left. reflexivity.
    + split; [congruence | intros (w & [])].
Qed.


End TableContents.

(** ** The build as an accumulation *)

Lemma observed_app (book1 book2 : list (list pystr))
    {builtins : StrBuiltins} :
  observed (book1 ++ book2) = observed book1 ++ observed book2.
Proof. unfold observed. rewrite concat_app. apply flat_map_app. Qed.



Section Accumulation.

Context {builtins : StrBuiltins} {random : RandomModule}.

(** Whatever the source and whether the build returns or raises, it only
    appends: the keys it found are still there, in their order and before
    any new one, every entry it found is a prefix of the entry it leaves,
    and the table holds at least as many adjacencies as before. *)
Theorem build_only_appends (source : epub_source) (s : state) :
  let d := word_pairs s in
  let d' := word_pairs (snd (process_epub source s)) in
  (exists new_keys,
     keys d' = keys d ++ new_keys /\
     forall k, In k new_keys -> ~ In k (keys d)) /\
  (forall k, exists appended, successors k d' = successors k d ++ appended) /\
  adjacency_count d <= adjacency_count d'.
Proof.
  simpl. rewrite process_epub_table. destruct source as [book|e].
  - set (l := observed (decoded_prefix book)). split; [|split].
    + exists (first_seen (keys (word_pairs s)) (map fst l)).
      split; [apply keys_fold_record_order|].
      generalize (keys (word_pairs s)). clear.
      induction (map fst l) as [|x xs IH]; intros seen k Hk; simpl in Hk.
      * destruct Hk.
      * destruct (existsb (pystr_eqb x) seen) eqn:E.
        { apply (IH seen k Hk). }
        { destruct Hk as [<- | Hk].
          - rewrite <- existsb_pystr_In. congruence.
          - intros Hin. apply (IH (x :: seen) k Hk). right. assumption. }
    + intros k. eexists. apply successors_fold_record.
    + rewrite adjacency_count_fold_record. lia.
  - split; [|split].
    + exists []. rewrite app_nil_r. split; [reflexivity | intros k []].
    + intros k. exists []. rewrite app_nil_r. reflexivity.
    + lia.
Qed.

(** [process_epub] does not reset the table: a second successful build on
    the same generator leaves the table a single build of the two books,
    one after the other, would leave. *)
Theorem builds_accumulate (book1 book2 : list (list pystr)) (s : state) :
  word_pairs
    (snd (process_epub (Ok (map Ok book2))
            (snd (process_epub (Ok (map Ok book1)) s))))
  = word_pairs (snd (process_epub (Ok (map Ok (book1 ++ book2))) s)).
Proof.
  rewrite !process_epub_decoded. simpl.
  rewrite observed_app, fold_left_app. reflexivity.
Qed.

(** The successors of a built table are the adjacencies of its book. *)
Lemma In_successors_built (book : list (list pystr)) (d : dict) (k w : pystr) :
  built_from book d ->
  In w (successors k d) ->
  exists paragraphs p i,
    In paragraphs book /\ In p paragraphs /\
    nth_error (normalize p) i = Some k /\
    nth_error (normalize p) (S i) = Some w.
Proof.
  intros Hbuilt Hw. apply built_from_fold in Hbuilt.
  rewrite Hbuilt, successors_fold_record in Hw. simpl in Hw.
  apply in_map_iff in Hw as ([k' w'] & E & Hin). simpl in E. subst w'.
  apply filter_In in Hin as [Hin Hk]. simpl in Hk.
  apply pystr_eqb_eq in Hk. subst k'.
  unfold observed in Hin. apply in_flat_map in Hin as (p & Hp & Hin).
  apply in_concat in Hp as (paragraphs & Hps & Hp).
  apply In_adjacent in Hin as (i & Hi & Hi').
  exists paragraphs, p, i. auto.
Qed.

(** A book in which no paragraph has two tokens builds the empty table:
    the export then writes the header alone, every generation request
    raises the "not found" error, and [main] exits with status 1. *)
Theorem book_without_pairs (book : list (list pystr)) (s : state) :
  (forall paragraphs p,
     In paragraphs book -> In p paragraphs -> List.length (normalize p) < 2) ->
  word_pairs s = [] ->
  let s1 := snd (process_epub (Ok (map Ok book)) s) in
  word_pairs s1 = [] /\
  output_file (snd (save_word_pairs (Ok tt) s1))
  = Some [[str "first"; str "last"]] /\
  (forall start_word length,
     generate_text start_word length s1
     = (Raise (ValueError start_word), s1)) /\
  (forall configured opened printed start_word length,
     fst (main (Parsed start_word length) configured (Ok (map Ok book))
            opened printed s) = 1%Z).
Proof.
  intros Hshort Hempty.
  assert (Hobs : observed book = []).
  { unfold observed. induction book as [|paragraphs book IH]; [reflexivity|].
    simpl. rewrite flat_map_app, IH by (intros; eapply Hshort; [right|]; eauto).
    rewrite app_nil_r.
    assert (Hps : forall p, In p paragraphs -> List.length (normalize p) < 2)
      by (intros p Hp; apply (Hshort paragraphs p); [left; reflexivity | exact Hp]).
    clear -Hps. induction paragraphs as [|p ps IH]; [reflexivity|].
    simpl. rewrite IH by (intros; apply Hps; right; assumption).
    rewrite app_nil_r. unfold adjacent.
    replace (List.length (normalize p) - 1) with 0
      by (specialize (Hps p (or_introl eq_refl)); lia).
    reflexivity. }
  assert (Hbuild : forall s0, word_pairs s0 = [] ->
            word_pairs (snd (process_epub (Ok (map Ok book)) s0)) = []).
  { intros s0 H0. rewrite process_epub_decoded. simpl. rewrite Hobs, H0.
    reflexivity. }
  cbv zeta. split; [apply Hbuild; assumption|].
  split.
  { rewrite save_word_pairs_encodable; rewrite (Hbuild s Hempty); reflexivity. }
  split.
  { intros start_word length. apply generate_text_unknown.
    rewrite (Hbuild s Hempty). reflexivity. }
  intros configured opened printed start_word length. rewrite main_run.
  destruct configured as [u0|e]; [|reflexivity].
  pose proof (Hbuild (set_word_pairs [] s) eq_refl) as Htab.
  destruct (process_epub (Ok (map Ok book)) (set_word_pairs [] s))
    as [[[]|e] s1]; [|reflexivity].
  simpl in Htab.
  destruct (save_word_pairs_table opened s1) as (Htab2 & _).
  destruct (save_word_pairs opened s1) as [[u|e] s2]; [|reflexivity].
  simpl in Htab2.
  rewrite generate_text_unknown; [reflexivity|].
  rewrite Htab2, Htab. reflexivity.
Qed.

End Accumulation.

(** ** Books of Unicode text and the claims on the build and the export *)



Section EncodableBooks.

Context {builtins : StrBuiltins} {random : RandomModule}.



Lemma observed_split (docs : list (list pystr)) (before : list pystr)
    (p : pystr) (after : list pystr) (docs_after : list (list pystr)) :
  observed (docs ++ (before ++ p :: after) :: docs_after)
  = observed (docs ++ [before]) ++ adjacent (normalize p)
    ++ observed (after :: docs_after).
Proof.
  unfold observed. rewrite !concat_app. simpl.
  rewrite !app_nil_r, !flat_map_app. simpl.
  rewrite ?flat_map_app, <- ?app_assoc. reflexivity.
Qed.

Lemma observed_split_without (docs : list (list pystr))
    (before after : list pystr) (docs_after : list (list pystr)) :
  observed (docs ++ (before ++ after) :: docs_after)
  = observed (docs ++ [before]) ++ observed (after :: docs_after).
Proof.
  unfold observed. rewrite !concat_app. simpl.
  rewrite !app_nil_r, !flat_map_app. simpl.
  rewrite ?flat_map_app, <- ?app_assoc. reflexivity.
Qed.

(** C1.  Take any book that decodes and any paragraph [p] of it, with
    [n] the number of tokens the normalizer yields for [p].  The build
    returns normally, and between the table [process_epub] has when it
    reaches [p] and the one it has when it leaves [p] exactly the
    adjacencies of [p] were recorded: for i = 0 .. n-2, in this order,
    (token i, token i+1), max(0, n-1) of them, each appended to the entry
    of its predecessor, which is created when absent; so every entry
    grows by the successors observed after that key in [p], and the
    table holds max(0, n-1) adjacencies more.  The rest of the build goes
    on from that table, and the whole build holds max(0, n-1)
    adjacencies more than the build of the same book without [p].  With
    fewer than two tokens, the empty paragraph included, [p] changes
    nothing. *)
Theorem build_adds_paragraph_adjacencies (docs : list (list pystr))
    (before : list pystr) (p : pystr) (after : list pystr)
    (docs_after : list (list pystr)) (s : state) :
  let words := normalize p in
  let n := Z.of_nat (List.length words) in
  let s0 := snd (process_epub (Ok (map Ok (docs ++ [before]))) s) in
  let without :=
    snd (process_epub
           (Ok (map Ok (docs ++ (before ++ after) :: docs_after))) s) in
  exists s1 s2,
    process_epub (Ok (map Ok (docs ++ [before ++ [p]]))) s = (Ok tt, s1) /\
    process_epub
      (Ok (map Ok (docs ++ (before ++ p :: after) :: docs_after))) s
    = (Ok tt, s2) /\
    word_pairs s1 = fold_left record (adjacent words) (word_pairs s0) /\
    word_pairs s2
    = fold_left record (observed (after :: docs_after)) (word_pairs s1) /\
    Z.of_nat (List.length (adjacent words)) = Z.max 0 (n - 1) /\
    (forall i, (0 <= i <= n - 2)%Z ->
       nth_error (adjacent words) (Z.to_nat i)
       = Some (nth (Z.to_nat i) words [], nth (Z.to_nat (i + 1)) words [])) /\
    (forall k,
       successors k (word_pairs s1)
       = successors k (word_pairs s0)
         ++ map snd (filter (fun a => pystr_eqb (fst a) k) (adjacent words))) /\
    (forall k, In k (keys (word_pairs s1)) <->
       In k (keys (word_pairs s0)) \/ In k (map fst (adjacent words))) /\
    Z.of_nat (adjacency_count (word_pairs s1))
    = (Z.of_nat (adjacency_count (word_pairs s0)) + Z.max 0 (n - 1))%Z /\
    Z.of_nat (adjacency_count (word_pairs s2))
    = (Z.of_nat (adjacency_count (word_pairs without)) + Z.max 0 (n - 1))%Z /\
    ((n < 2)%Z -> s1 = s0).
Proof.
  intros words n s0 without. subst s0 without.
  exists (snd (process_epub (Ok (map Ok (docs ++ [before ++ [p]]))) s)),
    (snd (process_epub
            (Ok (map Ok (docs ++ (before ++ p :: after) :: docs_after))) s)).
  split; [rewrite process_epub_decoded; reflexivity|].
  split; [rewrite process_epub_decoded; reflexivity|].
  assert (Hlast : observed (docs ++ [before ++ [p]])
                  = observed (docs ++ [before]) ++ adjacent words).
  { rewrite (observed_split docs before p [] []).
    change (observed [[]]) with (@nil (pystr * pystr)).
    rewrite app_nil_r. reflexivity. }
  assert (Htable : forall book,
            word_pairs (snd (process_epub (Ok (map Ok book)) s))
            = fold_left record (observed book) (word_pairs s))
    by (intros book; rewrite process_epub_decoded; reflexivity).
  rewrite !Htable.
  rewrite Hlast, observed_split, observed_split_without, !fold_left_app.
  fold words.
  set (d0 := fold_left record (observed (docs ++ [before])) (word_pairs s)).
  split; [reflexivity|]. split; [reflexivity|].
  split; [rewrite length_adjacent; subst n; lia|].
  split.
  { intros i Hi. replace (Z.to_nat (i + 1)) with (S (Z.to_nat i)) by lia.
    apply nth_error_adjacent. subst n. lia. }
  split; [intros k; apply successors_fold_record|].
  split; [intros k; apply keys_fold_record|].
  split.
  { rewrite adjacency_count_fold_record, length_adjacent. subst n. lia. }
  split.
  { rewrite !adjacency_count_fold_record, length_adjacent. subst n. lia. }
  intros Hn.
  assert (E : adjacent words = []).
  { unfold adjacent.
    replace (List.length words - 1) with 0 by (subst n; lia). reflexivity. }
  rewrite !process_epub_decoded, Hlast, E, app_nil_r. reflexivity.
Qed.



End EncodableBooks.

(** ** The program as a whole *)


Section Main.

Context {builtins : StrBuiltins} {random : RandomModule}.

Lemma length_keys (d : dict) : List.length (keys d) = List.length d.
Proof. apply length_map. Qed.





(** When the destination cannot be opened, [main] stops there with
    status 1: the table was built, but nothing is written to the file,
    nothing is printed, no random number is drawn, and the error is
    logged twice, by [save_word_pairs] and by [main]. *)
Theorem main_export_failure (book : list (list pystr)) (e : exn)
    (start_word : pystr) (length : Z) (printed : pystr -> outcome unit)
    (s : state) :
  let table := fold_left record (observed book) [] in
  exists s',
    main (Parsed start_word length) (Ok tt) (Ok (map Ok book)) (Raise e)
      printed s
    = (1%Z, s') /\
    word_pairs s' = table /\
    output_file s' = output_file s /\
    stdout s' = stdout s /\ rand s' = rand s /\
    log s'
    = log s
      ++ [(INFO, ProcessingEpub);
          (INFO, ProcessedUnique
                   (List.length (first_seen [] (map fst (observed book)))));
          (ERROR, ErrorSaving e);
          (ERROR, ProgramFailed e)].
Proof.
  intros table. rewrite main_run, process_epub_decoded, save_word_pairs_run.
  eexists. split; [reflexivity|]. simpl. fold table.
  repeat (split; [reflexivity|]).
  rewrite <- !app_assoc. simpl. do 3 f_equal.
  rewrite <- length_keys. unfold table.
  rewrite keys_fold_record_order. reflexivity.
Qed.

End Main.

(** ** More on the walk *)



Section Walks.

Context {builtins : StrBuiltins} {random : RandomModule}.




Lemma generate_text_known (start_word : pystr) (length : Z) (s : state) :
  dict_contains start_word (word_pairs s) = true ->
  generate_text start_word length s
  = match
      for_break (py_range (length - 1)) generate_step
        ([start_word], start_word) s
    with
    | (Ok locals, s') => (Ok (join (str " ") (fst locals)), s')
    | (Raise e, s') => (Raise e, add_log (ERROR, ErrorGenerating e) s')
    end.
Proof.
  intros Hin. unfold generate_text, bind at 1, gets. rewrite Hin.
  unfold negb. cbv iota. unfold try_except, bind.
  destruct (for_break (py_range (length - 1)) generate_step
              ([start_word], start_word) s) as [[l|e] s']; reflexivity.
Qed.

(** Every pair of neighbours in a generated text are neighbours in some
    paragraph of the book the table was built from, and every generated
    word is a token of the book. *)
Theorem generated_pairs_were_observed (book : list (list pystr)) (s : state)
    (start_word : pystr) (length : Z) :
  built_from book (word_pairs s) ->
  dict_contains start_word (word_pairs s) = true ->
  exists words s',
    generate_text start_word length s = (Ok (join (str " ") words), s') /\
    (forall i a b,
       nth_error words i = Some a -> nth_error words (S i) = Some b ->
       exists paragraphs p j,
         In paragraphs book /\ In p paragraphs /\
         nth_error (normalize p) j = Some a /\
         nth_error (normalize p) (S j) = Some b) /\
    (forall a, In a words ->
       exists paragraphs p,
         In paragraphs book /\ In p paragraphs /\ In a (normalize p)).
Proof.
  intros Hbuilt Hin.
  destruct (built_from_invariants _ _ Hbuilt) as (Hnd & Hne & Htok).
  destruct (generate_text_run start_word length s Hne Hin)
    as (rest & s' & Hrun & _ & Hwalk & _).
  exists (start_word :: rest), s'. split; [exact Hrun|].
  assert (Hpairs : forall i a b,
    nth_error (start_word :: rest) i = Some a ->
    nth_error (start_word :: rest) (S i) = Some b ->
    exists paragraphs p j,
      In paragraphs book /\ In p paragraphs /\
      nth_error (normalize p) j = Some a /\
      nth_error (normalize p) (S j) = Some b).
  { intros i a b Ha Hb.
    apply (In_successors_built book (word_pairs s) a b Hbuilt).
    apply (walk_in_nth _ _ _ _ _ _ Hwalk Ha Hb). }
  split; [exact Hpairs|].
  intros a Ha. apply In_nth_error in Ha as (i & Hi).
  destruct i as [|i].
  - simpl in Hi. injection Hi as <-.
    unfold dict_contains in Hin.
    destruct (dict_get start_word (word_pairs s)) as [v|] eqn:E; [|discriminate].
    destruct v as [|w v]; [exfalso; apply (Hne _ _ E); reflexivity|].
    destruct (In_successors_built book (word_pairs s) start_word w Hbuilt)
      as (paragraphs & p & j & Hps & Hp & Hj & _).
    { unfold successors. rewrite E. left. reflexivity. }
    exists paragraphs, p. repeat split; try assumption.
    apply (nth_error_In _ _ Hj).
  - assert (Hprev : exists a0, nth_error (start_word :: rest) i = Some a0).
    { destruct (nth_error (start_word :: rest) i) as [a0|] eqn:E;
        [exists a0; reflexivity|].
      apply nth_error_None in E.
      assert (S i < List.length (start_word :: rest))
        by (apply nth_error_Some; congruence).
      lia. }
    destruct Hprev as (a0 & Ha0).
    destruct (Hpairs i a0 a Ha0 Hi) as (paragraphs & p & j & Hps & Hp & _ & Hj).
    exists paragraphs, p. repeat split; try assumption.
    apply (nth_error_In _ _ Hj).
Qed.


(** The walk relies on entries being non-empty: when the entry of the
    start word is the empty list and two words or more are requested,
    [random.choice] fails, and [generate_text] logs the [IndexError] and
    raises it, having changed nothing else. *)
Theorem empty_entry_raises_index_error (s : state) (start_word : pystr)
    (length : Z) :
  dict_get start_word (word_pairs s) = Some [] ->
  (2 <= length)%Z ->
  generate_text start_word length s
  = (Raise IndexError, add_log (ERROR, ErrorGenerating IndexError) s).
Proof.
  intros Hget Hlen. unfold generate_text, bind at 1, gets.
  assert (Hin : dict_contains start_word (word_pairs s) = true)
    by (unfold dict_contains; rewrite Hget; reflexivity).
  rewrite Hin. unfold negb. cbv iota.
  replace (length - 1)%Z with ((length - 2) + 1)%Z by lia.
  unfold py_range.
  replace (Z.to_nat (length - 2 + 1)) with (S (Z.to_nat (length - 2))) by lia.
  simpl seq. simpl map. unfold try_except, bind at 1.
  rewrite for_break_cons.
  unfold generate_step, bind at 1, gets. rewrite Hin. unfold negb. cbv iota.
  unfold bind at 1.
  rewrite (defaultdict_getitem_present start_word [] s Hget).
  reflexivity.
Qed.


(** What each method leaves alone, whether it returns or raises:
    [process_epub] the file, the printed lines and the random generator;
    [save_word_pairs] the table, the printed lines and the random
    generator, and also the file when it cannot be opened;
    [generate_text] the table, the file and the printed lines.  None
    removes or rewrites a log record. *)
Theorem methods_leave_the_rest_alone (s : state) :
  (forall source,
     let s' := snd (process_epub source s) in
     output_file s' = output_file s /\ stdout s' = stdout s /\
     rand s' = rand s /\ exists records, log s' = log s ++ records) /\
  (forall opened,
     let s' := snd (save_word_pairs opened s) in
     word_pairs s' = word_pairs s /\ stdout s' = stdout s /\
     rand s' = rand s /\
     (forall e, opened = Raise e -> output_file s' = output_file s) /\
     exists records, log s' = log s ++ records) /\
  (forall start_word length,
     let s' := snd (generate_text start_word length s) in
     word_pairs s' = word_pairs s /\ output_file s' = output_file s /\
     stdout s' = stdout s /\ exists records, log s' = log s ++ records).
Proof.
  split; [|split].
  - intros source. simpl.
    destruct (process_epub_frame source s) as (Hf & Hp & Hr).
    do 3 (split; [assumption|]).
    rewrite process_epub_run. destruct source as [book|e].
    + simpl. destruct (first_failure_in book); simpl;
        rewrite <- app_assoc; eexists; reflexivity.
    + simpl. eexists; reflexivity.
  - intros opened. cbv zeta. rewrite save_word_pairs_run.
    destruct opened as [[]|e]; cbv zeta.
    + destruct (rows_encodable (pair_rows (word_pairs s))); simpl;
        do 3 (split; [reflexivity|]); (split; [discriminate|]);
        eexists; reflexivity.
    + simpl. do 3 (split; [reflexivity|]). split; [reflexivity|].
      eexists; reflexivity.
  - intros start_word length. simpl.
    destruct (dict_contains start_word (word_pairs s)) eqn:Hin.
    + rewrite generate_text_known by assumption.
      pose proof (for_break_frame (py_range (length - 1))
                    ([start_word], start_word) s) as (Ht & Hl & Hf & Hp).
      destruct (for_break (py_range (length - 1)) generate_step
                  ([start_word], start_word) s) as [[l|e] s1];
        simpl in *; do 3 (split; [assumption|]).
      * exists []. rewrite app_nil_r. assumption.
      * rewrite Hl. eexists; reflexivity.
    + rewrite generate_text_unknown by assumption. simpl.
      do 3 (split; [reflexivity|]).
      exists []. rewrite app_nil_r. reflexivity.
Qed.

End Walks.

(** ** The fields of the exported rows *)


Section Fields.

Context {builtins : StrBuiltins} {random : RandomModule}.



End Fields.

(** ** Sizes, and punctuation seen from outside *)

Lemma adjacency_count_at_least_keys (d : dict) :
  Forall (fun item => snd item <> []) d ->
  List.length (keys d) <= adjacency_count d.
Proof.
  unfold keys, adjacency_count. induction 1 as [|[k v] d Hv Hd IH]; simpl.
  - lia.
  - destruct v as [|w v]; [simpl in Hv; congruence|]. simpl. lia.
Qed.

Section Sizes.

Context {builtins : StrBuiltins} {random : RandomModule}.

(** The table built from a book holds, for each paragraph of n tokens,
    n - 1 adjacencies (none for n = 0), and nothing else; it has at most
    as many keys as adjacencies. *)
Theorem built_table_size (book : list (list pystr)) (d : dict) :
  built_from book d ->
  adjacency_count d
  = list_sum (map (fun p => List.length (normalize p) - 1) (List.concat book)) /\
  List.length (keys d) <= adjacency_count d.
Proof.
  intros Hbuilt.
  destruct (built_from_invariants _ _ Hbuilt) as (Hnd & Hne & _).
  split.
  - apply built_from_fold in Hbuilt. subst d.
    rewrite adjacency_count_fold_record. simpl. unfold observed.
    induction (List.concat book) as [|p ps IH]; [reflexivity|].
    simpl. rewrite length_app, length_adjacent, IH. reflexivity.
  - apply adjacency_count_at_least_keys, nonempty_entries_Forall; assumption.
Qed.

(** A character of the punctuation set is invisible to the normalizer:
    the text with it and the text without it have the same tokens, the
    characters on its two sides ending up in one word when no whitespace
    separates them. *)
Theorem punctuation_is_invisible (a b : pystr) (c : char) :
  In c punctuation -> normalize (a ++ c :: b) = normalize (a ++ b).
Proof.
  intros Hc. unfold normalize, clean_text.
  rewrite !translate_delete_app. unfold translate_delete at 2. cbn [filter].
  apply char_in_In in Hc. rewrite Hc. reflexivity.
Qed.

End Sizes.

(** ** The deterministic run *)

Example sample_tokens :
  @normalize ascii_lower (str "The cat sat. The cat ran.")
  = [str "the"; str "cat"; str "sat"; str "the"; str "cat"; str "ran"].
Proof. vm_compute. reflexivity. Qed.

Example sample_dash_kept :
  @normalize ascii_lower
    (str "Don't stop " ++ [0x2014%N] ++ str " go!")
  = [str "dont"; str "stop"; [0x2014%N]; str "go"].
Proof. vm_compute. reflexivity. Qed.

Example sample_closing_quote :
  @normalize ascii_lower ([0x201C%N] ++ str "Hi" ++ [0x201D%N])
  = [str "hi" ++ [0x201D%N]].
Proof. vm_compute. reflexivity. Qed.

Example sample_table :
  word_pairs sample_generator
  = [(str "the", [str "cat"; str "cat"]);
     (str "cat", [str "sat"; str "ran"]);
     (str "sat", [str "the"])].
Proof. vm_compute. reflexivity. Qed.

Example sample_export :
  output_file (snd (@save_word_pairs first_choice (Ok tt) sample_generator))
  = Some [[str "first"; str "last"];
          [str "the"; str "cat"]; [str "the"; str "cat"];
          [str "cat"; str "sat"]; [str "cat"; str "ran"];
          [str "sat"; str "the"]].
Proof. vm_compute. reflexivity. Qed.

Example surrogate_stops_export :
  let s :=
    snd (@process_epub ascii_lower first_choice
           (Ok [Ok [[0x61; 0xD800]%N ++ str " b"]]) new_generator) in
  word_pairs s = [([0x61; 0xD800]%N, [str "b"])] /\
  fst (@save_word_pairs first_choice (Ok tt) s) = Raise UnicodeEncodeError /\
  output_file (snd (@save_word_pairs first_choice (Ok tt) s))
  = Some [[str "first"; str "last"]] /\
  fst (@main ascii_lower first_choice (Parsed [0x61; 0xD800]%N 3) (Ok tt)
         (Ok [Ok [[0x61; 0xD800]%N ++ str " b"]]) (Ok tt) (fun _ => Ok tt)
         new_generator)
  = 1%Z.
Proof. vm_compute. repeat split; reflexivity. Qed.

Example sample_generation :
  fst (@generate_text first_choice (str "the") 3 sample_generator)
  = Ok (str "the cat sat").
Proof. vm_compute. reflexivity. Qed.

Example sample_early_stop :
  fst (@generate_text first_choice (str "cat") 5
         (set_word_pairs [(str "cat", [str "ran"])] new_generator))
  = Ok (str "cat ran").
Proof. vm_compute. reflexivity. Qed.

Lemma sample_built :
  @built_from ascii_lower first_choice sample_book (word_pairs sample_generator).
Proof.
  exists new_generator, sample_generator.
  split; [reflexivity|]. split; [|reflexivity].
  vm_compute. reflexivity.
Qed.


Lemma generate_walk_witness :
  exists words s',
    @generate_text first_choice (str "the") 3 sample_generator
    = (Ok (join (str " ") words), s') /\
    split (join (str " ") words) = words /\
    (1 <= Z.of_nat (List.length words) <= 3)%Z /\
    hd_error words = Some (str "the").
Proof.
  destruct (@generate_walk ascii_lower first_choice sample_book
              sample_generator (str "the") 3 sample_built eq_refl)
    as (words & s' & H1 & H2 & H3 & H4 & _).
  - lia.
  - exists words, s'. repeat split; try assumption; apply H3.
Defined.

Lemma generate_not_found_witness :
  @generate_text first_choice (str "ran") 3 sample_generator
  = (Raise (ValueError (str "ran")), sample_generator).
Proof.
  apply (@generate_not_found ascii_lower first_choice sample_book
           sample_generator (str "ran") 3 sample_built).
  reflexivity.
Defined.



Lemma generate_nonpositive_length_witness :
  @generate_text first_choice (str "the") 0 sample_generator
  = (Ok (str "the"), sample_generator).
Proof.
  apply (@generate_nonpositive_length first_choice sample_generator
           (str "the") 0); [lia | reflexivity].
Defined.

Lemma table_holds_paragraph_adjacencies_witness :
  In (str "ran") (successors (str "cat") (word_pairs sample_generator)) <->
  exists paragraphs p i,
    In paragraphs sample_book /\ In p paragraphs /\
    nth_error (@normalize ascii_lower p) i = Some (str "cat") /\
    nth_error (@normalize ascii_lower p) (S i) = Some (str "ran").
Proof.
  destruct (@table_holds_paragraph_adjacencies ascii_lower first_choice
              sample_book (word_pairs sample_generator) sample_built
              (str "cat")) as [H _].
  exact (H (str "ran")).
Defined.



Lemma book_without_pairs_witness :
  word_pairs
    (snd (@process_epub ascii_lower first_choice
            (Ok (map Ok [[str ""; str "Hello!"]])) new_generator))
  = [].
Proof.
  destruct (@book_without_pairs ascii_lower first_choice
              [[str ""; str "Hello!"]] new_generator) as [H _].
  - intros paragraphs p [<-|[]] [<-|[<-|[]]]; vm_compute; lia.
  - reflexivity.
  - exact H.
Defined.



Lemma generated_pairs_were_observed_witness :
  exists words s',
    @generate_text first_choice (str "the") 3 sample_generator
    = (Ok (join (str " ") words), s') /\
    forall a, In a words ->
      exists paragraphs p,
        In paragraphs sample_book /\ In p paragraphs /\
        In a (@normalize ascii_lower p).
Proof.
  destruct (@generated_pairs_were_observed ascii_lower first_choice sample_book
              sample_generator (str "the") 3 sample_built eq_refl)
    as (words & s' & H1 & _ & H2).
  exists words, s'. split; assumption.
Defined.


Lemma empty_entry_raises_index_error_witness :
  @generate_text first_choice (str "cat") 2
    (set_word_pairs [(str "cat", [])] new_generator)
  = (Raise IndexError,
     add_log (ERROR, ErrorGenerating IndexError)
       (set_word_pairs [(str "cat", [])] new_generator)).
Proof.
  apply (@empty_entry_raises_index_error first_choice
           (set_word_pairs [(str "cat", [])] new_generator) (str "cat") 2).
  - reflexivity.
  - lia.
Defined.



Lemma built_table_size_witness :
  adjacency_count (word_pairs sample_generator)
  = list_sum
      (map (fun p => List.length (@normalize ascii_lower p) - 1)
         (List.concat sample_book)).
Proof.
  destruct (@built_table_size ascii_lower first_choice sample_book
              (word_pairs sample_generator) sample_built) as [H _].
  exact H.
Defined.

Lemma punctuation_is_invisible_witness :
  @normalize ascii_lower (str "Don" ++ 0x27%N :: str "t stop")
  = @normalize ascii_lower (str "Don" ++ str "t stop").
Proof.
  apply (@punctuation_is_invisible ascii_lower (str "Don") (str "t stop")
           0x27%N).
  unfold punctuation. simpl. tauto.
Defined.
